(** * Lofi stream server: the stream session manager

    A shallow embedding of the relay server (server/index.js): the
    credential lookup [loadStreamConfig], the ffmpeg supervisor class
    [StreamOutput] with its methods [start], [write] and [stop] and the
    handlers it registers on its child, the registry [streams], the
    health endpoint and the per-connection WebSocket handlers.

    The server is a single-threaded event loop, so every handler runs to
    completion: the embedding is a step function [handle] from one event
    and a world to the next world.  The world holds the JavaScript heap
    (the StreamOutput objects, shared by reference between a session's
    closure and the registry), the child processes the operating system
    holds, the registry, the closures of the connections, and the trace of
    the effects performed so far. *)

From Stdlib Require Import String Ascii List Bool Arith Lia.
From stdpp Require Import base option list strings gmap.

Local Open Scope string_scope.

(** ** JavaScript strings

    A string is a sequence of code units; the model keeps the code units
    below 256, one per [ascii]. *)
Module JsString.

(** [s.split(c)] for a one-character separator: never empty, and the
    empty string splits into one empty piece. *)
Fixpoint split (c : ascii) (s : string) : list string :=
  match s with
  | EmptyString => [EmptyString]
  | String a rest =>
      if Ascii.eqb a c then EmptyString :: split c rest
      else match split c rest with
           | piece :: pieces => String a piece :: pieces
           | [] => [String a EmptyString]
           end
  end.

(** [parts.join(sep)] *)
Definition join (sep : string) (parts : list string) : string :=
  String.concat sep parts.

(** [s.startsWith(c)] for a one-character prefix. *)
Definition startsWith (c : ascii) (s : string) : bool :=
  match s with
  | String a _ => Ascii.eqb a c
  | EmptyString => false
  end.

(** White space and line terminators of ECMAScript among the code units
    below 256: TAB, LF, VT, FF, CR, SP and NBSP. *)
Definition is_space (a : ascii) : bool :=
  let n := nat_of_ascii a in
  ((9 <=? n)%nat && (n <=? 13)%nat) || (n =? 32)%nat || (n =? 160)%nat.

Fixpoint trimStart (s : string) : string :=
  match s with
  | String a rest => if is_space a then trimStart rest else s
  | EmptyString => EmptyString
  end.

(** Drops the trailing white space: a character is kept when it is not
    white space or when something is kept after it. *)
Fixpoint trimEnd (s : string) : string :=
  match s with
  | EmptyString => EmptyString
  | String a rest =>
      match trimEnd rest with
      | EmptyString => if is_space a then EmptyString else String a EmptyString
      | kept => String a kept
      end
  end.

(** [s.trim()] *)
Definition trim (s : string) : string := trimEnd (trimStart s).

(** Truthiness of a string: only the empty string is falsy. *)
Definition truthy (s : string) : bool :=
  match s with EmptyString => false | _ => true end.

End JsString.

(** ** The credential files *)

(** What the file system holds at a path: [existsSync] answers true for
    both, [readFileSync] returns the content of a regular file and throws
    for anything else (a directory, a file without read permission). *)
Inductive fs_node :=
| RegularFile (content : string)
| Unreadable.

(** Result of a call that can throw. *)
Inductive outcome (A : Type) :=
| Returns (a : A)
| Throws.
Arguments Returns {A} a.
Arguments Throws {A}.

(** How [spawn('ffmpeg', ...)] of Node's child_process can end.
    - [SpawnOk]: the process runs.
    - [SpawnFailsAsync]: the binary is missing (ENOENT) or cannot be
      executed: [spawn] still returns a ChildProcess object with its three
      pipes, and the failure is delivered later as the child's 'error'
      event.
    - [SpawnThrows]: any other failure is thrown by [spawn] itself. *)
Inductive spawn_result := SpawnOk | SpawnFailsAsync | SpawnThrows.

(** What the server reads from its surroundings: [process.env.HOME], the
    file system, and the result of the n-th call of [spawn]. *)
Record environment := {
  HOME : string;
  fs : string -> option fs_node;
  spawn_outcome : nat -> spawn_result
}.

(** The object [config] of [loadStreamConfig]: own properties with string
    values. *)
Abbreviation config := (gmap string string).

(** [config[k] = v] on an object literal.  Object.prototype makes
    [__proto__] a setter that ignores a string, so that key creates no
    property. *)
Definition set_prop (k v : string) (c : config) : config :=
  if String.eqb k "__proto__" then c else <[k := v]> c.

(** The body of the [forEach] callback of [loadStreamConfig], for one
    line. *)
Definition parse_line (c : config) (line : string) : config :=
  if JsString.truthy line && negb (JsString.startsWith "#" line) then
    match JsString.split "=" line with
    | key :: valueParts =>
        if JsString.truthy key && negb (Nat.eqb (length valueParts) 0) then
          set_prop (JsString.trim key)
                   (JsString.trim (JsString.join "=" valueParts)) c
        else c
    | [] => c
    end
  else c.

Definition parse_env (content : string) : config :=
  fold_left parse_line (JsString.split "010" content) ∅.

Definition envPath (env : environment) (platform : string) : string :=
  HOME env ++ "/api-secrets/lofi-stream/platforms/" ++ platform ++ ".env".

(** [loadStreamConfig(platform)]: the lines it prints on the error console
    and its result, [None] for JavaScript's null. *)
Definition loadStreamConfig (env : environment) (platform : string)
  : list string * outcome (option config) :=
  match fs env (envPath env platform) with
  | None => (["Stream config not found: " ++ envPath env platform], Returns None)
  | Some Unreadable => ([], Throws)
  | Some (RegularFile content) => ([], Returns (Some (parse_env content)))
  end.

(** [cfg.k], a string or undefined, under [||] with a default. *)
Definition prop_or (c : config) (k dflt : string) : string :=
  match c !! k with
  | Some v => if JsString.truthy v then v else dflt
  | None => dflt
  end.

Definition default_stream_url : string := "rtmp://a.rtmp.youtube.com/live2".


(** ** The world of the server *)

(** Addresses of StreamOutput objects, process handles and connections are
    indices in the lists of the world that hold them. *)
Abbreviation addr := nat.
Abbreviation pid := nat.
Abbreviation conn := nat.

(** A binary WebSocket payload. *)
Abbreviation chunk := (list Byte.byte).

(** [class StreamOutput]: the fields its constructor sets. *)
Record StreamOutput := {
  platform : string;
  streamKey : string;
  streamUrl : string;
  ffmpeg : option pid;          (* null, or the ChildProcess *)
  isStreaming : bool
}.

(** A ChildProcess object returned by [spawn], with the state of its stdin
    pipe.  [owner] is the [this] that the 'close' and 'error' arrow
    functions registered by [start] have captured. *)
Record child := {
  owner : addr;
  rtmpUrl : string;             (* the last argument of ffmpeg *)
  spawned : spawn_result;
  stdin_received : list chunk;  (* what stdin.write was given, in order *)
  stdin_writable : bool;        (* stdin.writable *)
  stdin_ended : bool;           (* stdin.end() was called *)
  signals : list string;        (* what kill() was given *)
  close_emitted : bool          (* 'close' is emitted once *)
}.

(** The variables of one [wss.on('connection')] closure, and whether the
    transport still has the connection open. *)
Record session := {
  streamOutput : option addr;
  session_platform : string;
  connected : bool
}.

(** The object handed to [JSON.stringify] and [ws.send]. *)
Inductive reply :=
| ErrorReply (error : string)
| StatusStreaming (platform : string).

(** Effects, in the order the server performs them.  [Cleared a] records
    the pair of assignments [this.ffmpeg = null; this.isStreaming = false]
    on the StreamOutput at [a]. *)
Inductive action :=
| ConsoleLog (line : string)
| ConsoleError (line : string)
| WsSend (c : conn) (r : reply)
| SpawnCall (url : string)
| StdinWrite (p : pid) (data : chunk)
| StdinEnd (p : pid)
| Kill (p : pid) (signal : string)
| Cleared (a : addr).

(** The registry [streams], a JavaScript Map: entries in insertion
    order. *)
Abbreviation registry := (list (string * addr)).

Record world := {
  heap : list StreamOutput;
  procs : list child;
  streams : registry;
  sessions : list session;
  spawn_calls : nat;
  trace : list action
}.

Definition initial : world :=
  {| heap := []; procs := []; streams := []; sessions := [];
     spawn_calls := 0; trace := [] |}.

(** *** Map operations *)
Module JsMap.

(** [m.get(k)] *)
Fixpoint get (k : string) (m : registry) : option addr :=
  match m with
  | [] => None
  | (k', v) :: rest => if String.eqb k' k then Some v else get k rest
  end.

(** [m.set(k, v)]: an existing key keeps its place and takes the new
    value, a new key goes last. *)
Fixpoint set (k : string) (v : addr) (m : registry) : registry :=
  match m with
  | [] => [(k, v)]
  | (k', v') :: rest =>
      if String.eqb k' k then (k, v) :: rest else (k', v') :: set k v rest
  end.

(** [m.delete(k)] *)
Fixpoint delete (k : string) (m : registry) : registry :=
  match m with
  | [] => []
  | (k', v') :: rest =>
      if String.eqb k' k then delete k rest else (k', v') :: delete k rest
  end.

(** [Array.from(m.keys())] and [Array.from(m.values())] *)
Definition keys (m : registry) : list string := map fst m.
Definition values (m : registry) : list addr := map snd m.

End JsMap.

(** *** Updates of the world *)

Definition emit (x : action) (w : world) : world :=
  {| heap := heap w; procs := procs w; streams := streams w;
     sessions := sessions w; spawn_calls := spawn_calls w;
     trace := trace w ++ [x] |}.

Definition emit_all (xs : list action) (w : world) : world :=
  fold_left (fun w x => emit x w) xs w.

Definition set_heap (h : list StreamOutput) (w : world) : world :=
  {| heap := h; procs := procs w; streams := streams w;
     sessions := sessions w; spawn_calls := spawn_calls w;
     trace := trace w |}.

Definition set_procs (ps : list child) (w : world) : world :=
  {| heap := heap w; procs := ps; streams := streams w;
     sessions := sessions w; spawn_calls := spawn_calls w;
     trace := trace w |}.

Definition set_streams (m : registry) (w : world) : world :=
  {| heap := heap w; procs := procs w; streams := m;
     sessions := sessions w; spawn_calls := spawn_calls w;
     trace := trace w |}.

Definition set_sessions (ss : list session) (w : world) : world :=
  {| heap := heap w; procs := procs w; streams := streams w;
     sessions := ss; spawn_calls := spawn_calls w;
     trace := trace w |}.

Definition count_spawn_call (w : world) : world :=
  {| heap := heap w; procs := procs w; streams := streams w;
     sessions := sessions w; spawn_calls := S (spawn_calls w);
     trace := trace w |}.

(** Field updates of a StreamOutput. *)
Definition with_child (p : option pid) (running : bool) (so : StreamOutput)
  : StreamOutput :=
  {| platform := platform so; streamKey := streamKey so;
     streamUrl := streamUrl so; ffmpeg := p; isStreaming := running |}.

(** [this.ffmpeg = null; this.isStreaming = false] on the object at
    [a]. *)
Definition clear (a : addr) (w : world) : world :=
  match heap w !! a with
  | Some so => emit (Cleared a) (set_heap (<[a := with_child None false so]> (heap w)) w)
  | None => w
  end.

(** Update of the ChildProcess object [p]. *)
Definition upd_child (p : pid) (f : child -> child) (w : world) : world :=
  match procs w !! p with
  | Some ch => set_procs (<[p := f ch]> (procs w)) w
  | None => w
  end.

Definition new_child (a : addr) (url : string) (r : spawn_result) : child :=
  {| owner := a; rtmpUrl := url; spawned := r; stdin_received := [];
     stdin_writable := true; stdin_ended := false; signals := [];
     close_emitted := false |}.

(** [stdin.write(data)] on a writable pipe. *)
Definition receive (data : chunk) (ch : child) : child :=
  {| owner := owner ch; rtmpUrl := rtmpUrl ch; spawned := spawned ch;
     stdin_received := stdin_received ch ++ [data];
     stdin_writable := stdin_writable ch; stdin_ended := stdin_ended ch;
     signals := signals ch; close_emitted := close_emitted ch |}.

(** [stdin.end()] *)
Definition end_stdin (ch : child) : child :=
  {| owner := owner ch; rtmpUrl := rtmpUrl ch; spawned := spawned ch;
     stdin_received := stdin_received ch;
     stdin_writable := false; stdin_ended := true;
     signals := signals ch; close_emitted := close_emitted ch |}.

(** [kill(sig)] *)
Definition signal (sig : string) (ch : child) : child :=
  {| owner := owner ch; rtmpUrl := rtmpUrl ch; spawned := spawned ch;
     stdin_received := stdin_received ch;
     stdin_writable := stdin_writable ch; stdin_ended := stdin_ended ch;
     signals := signals ch ++ [sig]; close_emitted := close_emitted ch |}.

(** The process is gone: Node destroys the stdin pipe. *)
Definition destroy_stdin (ch : child) : child :=
  {| owner := owner ch; rtmpUrl := rtmpUrl ch; spawned := spawned ch;
     stdin_received := stdin_received ch;
     stdin_writable := false; stdin_ended := stdin_ended ch;
     signals := signals ch; close_emitted := close_emitted ch |}.

(** 'close' has been emitted: the process has ended and its pipes are
    closed. *)
Definition mark_closed (ch : child) : child :=
  {| owner := owner ch; rtmpUrl := rtmpUrl ch; spawned := spawned ch;
     stdin_received := stdin_received ch;
     stdin_writable := false; stdin_ended := stdin_ended ch;
     signals := signals ch; close_emitted := true |}.

(** What a text frame is after [JSON.parse(data.toString())] and the read
    of [.platform]: either of the two throws ([Unparseable]: not JSON, or
    the JSON value null), or the field is absent ([None]) or a string.
    Other types of the field are outside the model. *)
Inductive text_payload :=
| Unparseable
| ConfigObject (platform_field : option string).

(** A WebSocket message with its [isBinary] flag. *)
Inductive message :=
| Text (payload : text_payload)
| Binary (data : chunk).

(** What the event loop delivers. *)
Inductive event :=
| WsConnection                           (* wss 'connection' *)
| WsMessage (c : conn) (m : message)     (* ws 'message' *)
| WsClose (c : conn)                     (* ws 'close' *)
| WsError (c : conn)                     (* ws 'error' *)
| ChildExit (p : pid)                    (* the process ended; no listener *)
| ChildClose (p : pid) (code : string)   (* child 'close', code as printed *)
| ChildError (p : pid).                  (* child 'error' *)

Section Server.

Variable env : environment.

(** The prefix of every log line of a StreamOutput. *)
Definition tag (so : StreamOutput) : string := "[" ++ platform so ++ "]".

(** *** class StreamOutput *)

(** [start()].  The arrow ([U+2192]) of the log line is written [->]. *)
Definition start (a : addr) (w : world) : outcome unit * world :=
  match heap w !! a with
  | None => (Throws, w)
  | Some so =>
      match ffmpeg so with
      | Some _ =>
          (Returns (), emit (ConsoleLog (tag so ++ " FFmpeg already running")) w)
      | None =>
          let url := streamUrl so ++ "/" ++ streamKey so in
          let w1 := emit (ConsoleLog (tag so ++ " Starting ffmpeg -> "
                                      ++ streamUrl so ++ "/***")) w in
          let w2 := count_spawn_call (emit (SpawnCall url) w1) in
          match spawn_outcome env (spawn_calls w1) with
          | SpawnThrows => (Throws, w2)
          | r =>
              let p := length (procs w2) in
              let w3 := set_procs (procs w2 ++ [new_child a url r]) w2 in
              (Returns (),
               set_heap (<[a := with_child (Some p) true so]> (heap w3)) w3)
          end
      end
  end.

(** [write(chunk)] *)
Definition write (a : addr) (data : chunk) (w : world) : world :=
  match heap w !! a with
  | Some so =>
      match ffmpeg so with
      | Some p =>
          match procs w !! p with
          | Some ch =>
              if stdin_writable ch
              then emit (StdinWrite p data) (upd_child p (receive data) w)
              else w
          | None => w
          end
      | None => w
      end
  | None => w
  end.

(** [stop()] *)
Definition stop (a : addr) (w : world) : world :=
  match heap w !! a with
  | Some so =>
      match ffmpeg so with
      | Some p =>
          let w1 := emit (ConsoleLog (tag so ++ " Stopping ffmpeg")) w in
          let w2 := emit (StdinEnd p) (upd_child p end_stdin w1) in
          let w3 := emit (Kill p "SIGTERM") (upd_child p (signal "SIGTERM") w2) in
          clear a w3
      | None => w
      end
  | None => w
  end.

(** The listener of 'close' that [start] registers on its child. *)
Definition on_child_close (a : addr) (code : string) (w : world) : world :=
  match heap w !! a with
  | Some so =>
      clear a (emit (ConsoleLog (tag so ++ " FFmpeg exited with code " ++ code)) w)
  | None => w
  end.

(** The listener of 'error' that [start] registers on its child; the
    error object it prints is left out. *)
Definition on_child_error (a : addr) (w : world) : world :=
  match heap w !! a with
  | Some so => clear a (emit (ConsoleError (tag so ++ " FFmpeg error:")) w)
  | None => w
  end.

(** *** The health endpoint: [streams] and [activeStreams]. *)
Definition is_streaming (w : world) (a : addr) : bool :=
  match heap w !! a with
  | Some so => isStreaming so
  | None => false
  end.

Definition health (w : world) : list string * nat :=
  (JsMap.keys (streams w),
   length (filter (fun a => is_streaming w a = true) (JsMap.values (streams w)))).

(** *** The connection handlers *)

Definition new_session : session :=
  {| streamOutput := None; session_platform := "youtube"; connected := true |}.

(** The [catch] of the message handler; the exception it prints is left
    out. *)
Definition invalid_config (w : world) : world :=
  emit (ConsoleError "Invalid config message:") w.

Definition no_stream_key (c : conn) (p : string) (w : world) : world :=
  emit (WsSend c (ErrorReply ("No stream key found for " ++ p))) w.

(** [config.platform || 'youtube'] *)
Definition platform_of (field : option string) : string :=
  match field with
  | Some v => if JsString.truthy v then v else "youtube"
  | None => "youtube"
  end.

(** The first branch of the 'message' handler, entered when
    [streamOutput] is null and the frame is text: the [try] block and its
    [catch]. *)
Definition configure (c : conn) (s : session) (payload : text_payload)
                     (w : world) : world :=
  match payload with
  | Unparseable => invalid_config w
  | ConfigObject field =>
      let p := platform_of field in
      let s1 := {| streamOutput := None; session_platform := p;
                   connected := connected s |} in
      let w1 := set_sessions (<[c := s1]> (sessions w)) w in
      let w2 := emit (ConsoleLog ("Configuring stream for platform: " ++ p)) w1 in
      let (errors, loaded) := loadStreamConfig env p in
      let w3 := emit_all (map ConsoleError errors) w2 in
      match loaded with
      | Throws => invalid_config w3
      | Returns None => no_stream_key c p w3
      | Returns (Some streamConfig) =>
          match streamConfig !! "STREAM_KEY" with
          | None => no_stream_key c p w3
          | Some key =>
              if negb (JsString.truthy key) then no_stream_key c p w3
              else
                let a := length (heap w3) in
                let so := {| platform := p; streamKey := key;
                             streamUrl := prop_or streamConfig "STREAM_URL"
                                                  default_stream_url;
                             ffmpeg := None; isStreaming := false |} in
                let s2 := {| streamOutput := Some a; session_platform := p;
                             connected := connected s |} in
                let w4 := set_sessions (<[c := s2]> (sessions w3))
                            (set_heap (heap w3 ++ [so]) w3) in
                match start a w4 with
                | (Throws, w5) => invalid_config w5
                | (Returns _, w5) =>
                    emit (WsSend c (StatusStreaming p))
                         (set_streams (JsMap.set p a (streams w5)) w5)
                end
          end
      end
  end.

(** [ws.on('message', (data, isBinary) => ...)] *)
Definition on_message (c : conn) (m : message) (w : world) : world :=
  match sessions w !! c with
  | Some s =>
      match streamOutput s, m with
      | None, Text payload => configure c s payload w
      | Some a, Binary data => write a data w
      | None, Binary _ => w
      | Some _, Text _ => w
      end
  | None => w
  end.

(** [ws.on('close', ...)]; the transport has closed the connection. *)
Definition on_close (c : conn) (w : world) : world :=
  match sessions w !! c with
  | Some s =>
      let s1 := {| streamOutput := streamOutput s;
                   session_platform := session_platform s;
                   connected := false |} in
      let w1 := emit (ConsoleLog "Browser disconnected")
                     (set_sessions (<[c := s1]> (sessions w)) w) in
      match streamOutput s with
      | Some a =>
          let w2 := stop a w1 in
          set_streams (JsMap.delete (session_platform s) (streams w2)) w2
      | None => w1
      end
  | None => w
  end.

(** [ws.on('error', ...)]; the error object it prints is left out. *)
Definition on_error (c : conn) (w : world) : world :=
  match sessions w !! c with
  | Some _ => emit (ConsoleError "WebSocket error:") w
  | None => w
  end.

(** [wss.on('connection', ...)]: a new closure. *)
Definition on_connection (w : world) : world :=
  emit (ConsoleLog "Browser connected")
       (set_sessions (sessions w ++ [new_session]) w).

(** *** The event loop *)

(** One event.  A connection delivers events while it is open; a child
    delivers 'close' once, to the listener of the StreamOutput that
    spawned it. *)
Definition handle (e : event) (w : world) : world :=
  match e with
  | WsConnection => on_connection w
  | WsMessage c m =>
      match sessions w !! c with
      | Some s => if connected s then on_message c m w else w
      | None => w
      end
  | WsClose c =>
      match sessions w !! c with
      | Some s => if connected s then on_close c w else w
      | None => w
      end
  | WsError c =>
      match sessions w !! c with
      | Some s => if connected s then on_error c w else w
      | None => w
      end
  | ChildExit p => upd_child p destroy_stdin w
  | ChildClose p code =>
      match procs w !! p with
      | Some ch =>
          if close_emitted ch then w
          else on_child_close (owner ch) code (upd_child p mark_closed w)
      | None => w
      end
  | ChildError p =>
      match procs w !! p with
      | Some ch => on_child_error (owner ch) w
      | None => w
      end
  end.

Definition run (es : list event) (w : world) : world :=
  fold_left (fun w e => handle e w) es w.

(** The worlds the server can be in. *)
Definition reachable (w : world) : Prop :=
  exists es : list event, w = run es initial.

End Server.

(** ** Counting in traces and registries *)

(** How often the fields of the StreamOutput at [a] were cleared. *)
Fixpoint clearings (a : addr) (t : list action) : nat :=
  match t with
  | [] => 0
  | Cleared b :: rest => (if Nat.eqb a b then 1 else 0) + clearings a rest
  | _ :: rest => clearings a rest
  end.

(** How often [spawn] was called. *)
Fixpoint spawnings (t : list action) : nat :=
  match t with
  | [] => 0
  | SpawnCall _ :: rest => S (spawnings rest)
  | _ :: rest => spawnings rest
  end.

(** The state of the server without its trace. *)
Definition untraced (w : world)
  : list StreamOutput * list child * registry * list session * nat :=
  (heap w, procs w, streams w, sessions w, spawn_calls w).

(** ** Consistency of a world

    What every reachable world satisfies: a StreamOutput that holds a
    child is the owner its child's listeners captured, the registry has
    one entry per key, and the registry holds allocated objects. *)
Record consistent (w : world) : Prop := {
  child_owned :
    forall (a : addr) (so : StreamOutput) (p : pid),
      heap w !! a = Some so -> ffmpeg so = Some p ->
      exists ch : child, procs w !! p = Some ch /\ owner ch = a;
  keys_unique : NoDup (JsMap.keys (streams w));
  registered_allocated :
    forall a : addr, a ∈ JsMap.values (streams w) -> a < length (heap w)
}.

(** ** The steps of the configuration handshake *)

(** The session after the platform has been read from the message. *)
Definition awaiting (s : session) (p : string) : session :=
  {| streamOutput := None; session_platform := p; connected := connected s |}.

(** The session once its StreamOutput is constructed. *)
Definition holding (s : session) (p : string) (a : addr) : session :=
  {| streamOutput := Some a; session_platform := p; connected := connected s |}.

(** [new StreamOutput(platform, key, url)] *)
Definition fresh (p key : string) (streamConfig : config) : StreamOutput :=
  {| platform := p; streamKey := key;
     streamUrl := prop_or streamConfig "STREAM_URL" default_stream_url;
     ffmpeg := None; isStreaming := false |}.

(** The credentials of [p] resolve to the key [key]. *)
Definition resolves (env : environment) (p : string) (streamConfig : config) (key : string) : Prop :=
  exists content : string,
    fs env (envPath env p) = Some (RegularFile content) /\
    parse_env content = streamConfig /\
    streamConfig !! "STREAM_KEY" = Some key /\
    JsString.truthy key = true.

(** The credentials of [p] do not resolve: no file, or a file without a
    non-empty STREAM_KEY. *)
Definition unresolved (env : environment) (p : string) : Prop :=
  fs env (envPath env p) = None \/
  exists content : string,
    fs env (envPath env p) = Some (RegularFile content) /\
    prop_or (parse_env content) "STREAM_KEY" "" = "".

(** The child that [write] on the StreamOutput at [a] would feed: the
    guard [this.ffmpeg && this.ffmpeg.stdin.writable]. *)
Definition feeds (w : world) (a : addr) : option pid :=
  match heap w !! a with
  | Some so =>
      match ffmpeg so with
      | Some p =>
          match procs w !! p with
          | Some ch => if stdin_writable ch then Some p else None
          | None => None
          end
      | None => None
      end
  | None => None
  end.

(** ** A deployment to run the server on

    Three credential files: youtube and twitch give a key and no URL, kick
    gives both, nokey gives no key. *)
Definition demo_fs (path : string) : option fs_node :=
  if String.eqb path "/home/lofi/api-secrets/lofi-stream/platforms/youtube.env"
  then Some (RegularFile "STREAM_KEY=yt-key")
  else if String.eqb path "/home/lofi/api-secrets/lofi-stream/platforms/twitch.env"
  then Some (RegularFile "# twitch
STREAM_KEY = tw-key
")
  else if String.eqb path "/home/lofi/api-secrets/lofi-stream/platforms/kick.env"
  then Some (RegularFile "STREAM_KEY=kick-key
STREAM_URL=rtmps://ingest.kick.example/app")
  else if String.eqb path "/home/lofi/api-secrets/lofi-stream/platforms/nokey.env"
  then Some (RegularFile "STREAM_URL=rtmp://live.example/app")
  else None.

Definition demo_env (r : spawn_result) : environment :=
  {| HOME := "/home/lofi"; fs := demo_fs; spawn_outcome := fun _ => r |}.

(** The configuration message [{"platform": p}] on connection [c]. *)
Definition configure_for (c : conn) (p : string) : event :=
  WsMessage c (Text (ConfigObject (Some p))).

(** One browser connected and streaming to twitch. *)
Definition demo_streaming (r : spawn_result) : world :=
  run (demo_env r) [WsConnection; configure_for 0 "twitch"] initial.

(** Two browsers streaming to twitch, the second configured last. *)
Definition demo_two_sessions : world :=
  run (demo_env SpawnOk)
      [WsConnection; configure_for 0 "twitch";
       WsConnection; configure_for 1 "twitch"] initial.

(** ** The rest of the server *)

(** [s.includes(needle)] *)
Fixpoint includes (needle hay : string) : bool :=
  String.prefix needle hay ||
  match hay with
  | String _ rest => includes needle rest
  | EmptyString => false
  end.

(** The substrings for which the 'data' listener of the child's stderr
    prints the chunk. *)
Definition stderr_markers : list string :=
  ["Error"; "error"; "Opening"; "Stream mapping"; "rtmp"; "RTMP";
   "Connection"; "refused"; "Output #0"; "frame="].

(** The 'data' listener that [start] registers on the stderr of its child,
    [a] being the [this] it has captured and [msg] the chunk as a string. *)
Definition on_stderr_data (a : addr) (msg : string) (w : world) : world :=
  match heap w !! a with
  | Some so =>
      if existsb (fun marker => includes marker msg) stderr_markers
      then emit (ConsoleLog (tag so ++ " ffmpeg: " ++ JsString.trim msg)) w
      else w
  | None => w
  end.



(** The SIGINT listener, up to its [process.exit(0)]: every StreamOutput
    in the registry is stopped, in the order of the Map. *)
Definition on_sigint (w : world) : world :=
  fold_left (fun w a => stop a w) (JsMap.values (streams w))
            (emit (ConsoleLog (String "010" "Shutting down...")) w).

(** A character occurs in a string. *)
Fixpoint occurs (c : ascii) (s : string) : bool :=
  match s with
  | EmptyString => false
  | String a rest => Ascii.eqb a c || occurs c rest
  end.

(** A line of a credential file that [loadStreamConfig] passes over: empty,
    a comment, without [=], or with nothing before the first [=]. *)
Definition passed_over (line : string) : bool :=
  negb (JsString.truthy line) || JsString.startsWith "#" line ||
  negb (occurs "=" line) || JsString.startsWith "=" line.

(** ** What the handlers keep true

    Beyond [consistent]: the two fields of a StreamOutput that [start],
    [stop] and the listeners set together agree; a session holds an
    allocated StreamOutput of its own platform, which no other session
    holds; every StreamOutput is held by a session; a registry entry is
    held by a connected session of that platform; a child was spawned by
    an allocated StreamOutput, towards that object's URL and key, and by no
    other child's owner; a child that a StreamOutput holds has neither been
    closed nor ended nor signalled; and a child is signalled at most once,
    with SIGTERM, after the end of its stdin. *)
Record tidy (w : world) : Prop := {
  flags_agree :
    forall (a : addr) (so : StreamOutput),
      heap w !! a = Some so -> isStreaming so = true <-> ffmpeg so <> None;
  held_allocated :
    forall (c : conn) (s : session) (a : addr),
      sessions w !! c = Some s -> streamOutput s = Some a ->
      exists so, heap w !! a = Some so /\ platform so = session_platform s;
  held_distinct :
    forall (c c' : conn) (s s' : session) (a : addr),
      sessions w !! c = Some s -> sessions w !! c' = Some s' ->
      streamOutput s = Some a -> streamOutput s' = Some a -> c = c';
  allocated_held :
    forall (a : addr) (so : StreamOutput),
      heap w !! a = Some so ->
      exists c s, sessions w !! c = Some s /\ streamOutput s = Some a;
  entry_session :
    forall (k : string) (a : addr),
      JsMap.get k (streams w) = Some a ->
      exists c s,
        sessions w !! c = Some s /\ connected s = true /\
        streamOutput s = Some a /\ session_platform s = k;
  owner_allocated :
    forall (p : pid) (ch : child),
      procs w !! p = Some ch ->
      exists so, heap w !! owner ch = Some so /\
                 rtmpUrl ch = streamUrl so ++ "/" ++ streamKey so;
  owner_distinct :
    forall (p q : pid) (ch ch' : child),
      procs w !! p = Some ch -> procs w !! q = Some ch' ->
      owner ch = owner ch' -> p = q;
  held_child_live :
    forall (a : addr) (so : StreamOutput) (p : pid) (ch : child),
      heap w !! a = Some so -> ffmpeg so = Some p -> procs w !! p = Some ch ->
      close_emitted ch = false /\ stdin_ended ch = false /\ signals ch = [];
  signalled_once :
    forall (p : pid) (ch : child),
      procs w !! p = Some ch ->
      signals ch = [] \/ (signals ch = ["SIGTERM"] /\ stdin_ended ch = true)
}.

(** ** The browser client (browser/stream-client.js)

    The parts of [StreamClient] that decide what crosses the WebSocket:
    the promise of [_connectWebSocket] with the handlers that settle it,
    the choice of the recording format, the forwarding of the recorder's
    chunks, and [stop()].  The frames are the server's: a frame the server
    sends is what [JSON.parse] gives back to the client. *)
Module Client.

(** [ws.readyState] *)
Inductive ready_state := CONNECTING | OPEN | CLOSING | CLOSED.

(** The promise that [_connectWebSocket] returns. *)
Inductive promise :=
| Pending
| Fulfilled
| Rejected (reason : string).

(** [resolve] and [reject]: only a pending promise is settled. *)
Definition settle (to : promise) (pr : promise) : promise :=
  match pr with
  | Pending => to
  | _ => pr
  end.

(** [ws.onopen]: the configuration is the first frame. *)
Definition onopen (p : string) : message := Text (ConfigObject (Some p)).

(** [ws.onmessage]; [None] is data on which [JSON.parse] throws. *)
Definition onmessage (data : option reply) (pr : promise) : promise :=
  match data with
  | Some (StatusStreaming _) => settle Fulfilled pr
  | Some (ErrorReply e) => if JsString.truthy e then settle (Rejected e) pr else pr
  | None => pr
  end.

(** [ws.onerror] *)
Definition onerror (pr : promise) : promise :=
  settle (Rejected "WebSocket connection failed") pr.

(** The callback of [setTimeout], ten seconds later. *)
Definition ontimeout (state : ready_state) (pr : promise) : promise :=
  match state with
  | OPEN => pr
  | _ => settle (Rejected "Connection timeout") pr
  end.

(** The frames of the server, in the order of their arrival. *)
Definition receive_all (frames : list reply) (pr : promise) : promise :=
  fold_left (fun pr frame => onmessage (Some frame) pr) frames pr.

(** The formats [_startRecording] tries, in this order. *)
Definition mimeTypes : list string :=
  ["video/webm;codecs=vp9,opus"; "video/webm;codecs=vp8,opus";
   "video/webm;codecs=h264,opus"; "video/webm"].

(** [mimeTypes.find(mt => MediaRecorder.isTypeSupported(mt))] and the
    [throw] that follows when nothing is found. *)
Definition choose_mimeType (isTypeSupported : string -> bool) : outcome string :=
  match List.find isTypeSupported mimeTypes with
  | Some mt => Returns mt
  | None => Throws
  end.

(** [recorder.ondataavailable]: the frame sent for a chunk, if any; [ws] is
    null or the socket with its [readyState]. *)
Definition ondataavailable (ws : option ready_state) (data : chunk)
  : option message :=
  match ws with
  | Some OPEN => if (0 <? length data)%nat then Some (Binary data) else None
  | _ => None
  end.

(** [recorder.state] *)
Inductive recorder_state := inactive | recording | paused.

(** The fields of a StreamClient that [stop()] reads: each null or the
    object, the media stream with its tracks. *)
Record client := {
  ws : option ready_state;
  recorder : option recorder_state;
  audioContext : bool;
  stream : option (list nat);
  isStreaming : bool
}.

(** What [stop()] does to the browser. *)
Inductive effect :=
| StatusChange (state text : string)
| RecorderStop
| SocketClose
| AudioContextClose
| TrackStop (track : nat).

(** [stop()]; [recorder.stop()] leaves the recorder inactive. *)
Definition stop (cl : client) : client * list effect :=
  ({| ws := None;
      recorder := match recorder cl with
                  | Some _ => Some inactive
                  | None => None
                  end;
      audioContext := false;
      stream := None;
      isStreaming := false |},
   [StatusChange "stopping" "Stopping stream..."]
   ++ match recorder cl with
      | Some recording | Some paused => [RecorderStop]
      | _ => []
      end
   ++ match ws cl with Some _ => [SocketClose] | None => [] end
   ++ (if audioContext cl then [AudioContextClose] else [])
   ++ match stream cl with Some tracks => map TrackStop tracks | None => [] end
   ++ [StatusChange "stopped" "Stream stopped"])%list.

End Client.

(** The frames sent to connection [c] among the actions [t]. *)
Fixpoint sent_to (c : conn) (t : list action) : list reply :=
  match t with
  | [] => []
  | WsSend c' r :: rest =>
      if Nat.eqb c' c then r :: sent_to c rest else sent_to c rest
  | _ :: rest => sent_to c rest
  end.


(** ** Basic facts *)

(** The credential parser on a file with a comment, spaces around the
    key, an [=] inside the value, an empty value, a line without [=] and a
    line without a key. *)
Example parse_env_ex :
  let c := parse_env ("# twitch
STREAM_KEY = live_1=2
STREAM_URL=
novalue
=x
") in
  (c !! "STREAM_KEY", c !! "STREAM_URL", c !! "novalue", c !! "",
   prop_or c "STREAM_URL" default_stream_url)
  = (Some "live_1=2", Some "", None, None, default_stream_url).
Proof. vm_compute. reflexivity. Qed.

Lemma clearings_app a t1 t2 :
  clearings a (t1 ++ t2) = clearings a t1 + clearings a t2.
Proof.
  induction t1 as [|x t1 IH]; simpl; [reflexivity|].
  destruct x; simpl; rewrite ?IH; lia.
Qed.

Lemma spawnings_app t1 t2 :
  spawnings (t1 ++ t2) = spawnings t1 + spawnings t2.
Proof.
  induction t1 as [|x t1 IH]; simpl; [reflexivity|].
  destruct x; simpl; rewrite ?IH; lia.
Qed.

Lemma string_eqb_true (a b : string) : String.eqb a b = true <-> a = b.
Proof. apply String.eqb_eq. Qed.

Lemma string_eqb_false (a b : string) : String.eqb a b = false <-> a <> b.
Proof. apply String.eqb_neq. Qed.

Module JsMapFacts.
Import JsMap.

Lemma get_set_eq k v m : get k (set k v m) = Some v.
Proof.
  induction m as [|[k' v'] m IH]; simpl.
  - rewrite String.eqb_refl. reflexivity.
  - destruct (String.eqb k' k) eqn:E; simpl.
    + rewrite String.eqb_refl. reflexivity.
    + rewrite E. exact IH.
Qed.

Lemma get_set_ne k k' v m : k <> k' -> get k' (set k v m) = get k' m.
Proof.
  intros Hne. induction m as [|[k0 v0] m IH]; simpl.
  - apply string_eqb_false in Hne. rewrite Hne. reflexivity.
  - destruct (String.eqb k0 k) eqn:E; simpl.
    + apply string_eqb_true in E. subst k0.
      apply string_eqb_false in Hne. rewrite Hne. reflexivity.
    + destruct (String.eqb k0 k'); [reflexivity | exact IH].
Qed.

Lemma get_delete_eq k m : get k (delete k m) = None.
Proof.
  induction m as [|[k' v'] m IH]; simpl; [reflexivity|].
  destruct (String.eqb k' k) eqn:E; simpl; [exact IH|].
  rewrite E. exact IH.
Qed.

Lemma get_delete_ne k k' m : k <> k' -> get k' (delete k m) = get k' m.
Proof.
  intros Hne. induction m as [|[k0 v0] m IH]; simpl; [reflexivity|].
  destruct (String.eqb k0 k) eqn:E; simpl.
  - apply string_eqb_true in E. subst k0.
    apply string_eqb_false in Hne. rewrite Hne. exact IH.
  - destruct (String.eqb k0 k'); [reflexivity | exact IH].
Qed.


Lemma get_None_not_in_keys k m : get k m = None -> k ∉ keys m.
Proof.
  induction m as [|[k' v'] m IH]; simpl.
  - intros _ H. inversion H.
  - destruct (String.eqb k' k) eqn:E; [discriminate|].
    intros Hg Hin. apply string_eqb_false in E.
    inversion Hin; subst; [congruence|]. exact (IH Hg H1).
Qed.

Lemma get_Some_in_values k v m : get k m = Some v -> v ∈ values m.
Proof.
  induction m as [|[k' v'] m IH]; simpl; [discriminate|].
  destruct (String.eqb k' k).
  - intros [= ->]. apply list_elem_of_here.
  - intros H. apply list_elem_of_further. exact (IH H).
Qed.

(** Overwriting keeps the keys and their order. *)
Lemma keys_set_present k v v0 m : get k m = Some v0 -> keys (set k v m) = keys m.
Proof.
  induction m as [|[k' v'] m IH]; simpl; [discriminate|].
  destruct (String.eqb k' k) eqn:E; simpl.
  - apply string_eqb_true in E. subst k'. reflexivity.
  - intros H. f_equal. exact (IH H).
Qed.

Lemma keys_set_absent k v m : get k m = None -> keys (set k v m) = (keys m ++ [k])%list.
Proof.
  induction m as [|[k' v'] m IH]; simpl; [reflexivity|].
  destruct (String.eqb k' k) eqn:E; simpl; [discriminate|].
  intros H. f_equal. exact (IH H).
Qed.

Lemma keys_delete_subset k k' m : k' ∈ keys (delete k m) -> k' ∈ keys m.
Proof.
  induction m as [|[k0 v0] m IH]; simpl; [tauto|].
  destruct (String.eqb k0 k); simpl.
  - intros H. apply list_elem_of_further. exact (IH H).
  - intros H. inversion H; subst.
    + apply list_elem_of_here.
    + apply list_elem_of_further. apply IH. assumption.
Qed.

Lemma NoDup_keys_set k v m : NoDup (keys m) -> NoDup (keys (set k v m)).
Proof.
  intros Hnd. destruct (get k m) as [v0|] eqn:G.
  - rewrite (keys_set_present k v v0 m G). exact Hnd.
  - rewrite (keys_set_absent k v m G).
    apply NoDup_app. split; [exact Hnd|]. split.
    + intros x Hx Hk. apply list_elem_of_singleton in Hk. subst x.
      exact (get_None_not_in_keys k m G Hx).
    + apply NoDup_singleton.
Qed.

Lemma NoDup_keys_delete k m : NoDup (keys m) -> NoDup (keys (delete k m)).
Proof.
  induction m as [|[k0 v0] m IH]; simpl; [tauto|].
  intros Hnd. apply NoDup_cons in Hnd as [Hnotin Hnd].
  destruct (String.eqb k0 k); simpl; [exact (IH Hnd)|].
  apply NoDup_cons. split; [|exact (IH Hnd)].
  intros Hin. apply Hnotin. exact (keys_delete_subset k k0 m Hin).
Qed.

Lemma values_set v' k v m :
  v' ∈ values (set k v m) -> v' = v \/ v' ∈ values m.
Proof.
  induction m as [|[k0 v0] m IH]; simpl.
  - intros H. apply list_elem_of_singleton in H. left. exact H.
  - destruct (String.eqb k0 k); simpl; intros H; inversion H; subst.
    + left. reflexivity.
    + right. apply list_elem_of_further. assumption.
    + right. apply list_elem_of_here.
    + destruct (IH ltac:(assumption)) as [->|Hin]; [left; reflexivity|].
      right. apply list_elem_of_further. exact Hin.
Qed.

Lemma values_delete v' k m : v' ∈ values (delete k m) -> v' ∈ values m.
Proof.
  induction m as [|[k0 v0] m IH]; simpl; [tauto|].
  destruct (String.eqb k0 k); simpl; intros H.
  - apply list_elem_of_further. exact (IH H).
  - inversion H; subst; [apply list_elem_of_here|].
    apply list_elem_of_further. apply IH. assumption.
Qed.

End JsMapFacts.

(** ** Consistency is an invariant of the event loop *)

Section Invariant.

Variable env : environment.

Lemma consistent_initial : consistent initial.
Proof.
  split; simpl.
  - intros a so p H. rewrite lookup_nil in H. discriminate.
  - apply NoDup_nil_2.
  - intros a H. inversion H.
Qed.

(** Only the heap, the processes and the registry matter. *)
Lemma consistent_same w w' :
  heap w' = heap w -> procs w' = procs w -> streams w' = streams w ->
  consistent w -> consistent w'.
Proof.
  intros Hh Hp Hs [H1 H2 H3]. split; rewrite ?Hh, ?Hp, ?Hs; assumption.
Qed.

Lemma consistent_emit x w : consistent w -> consistent (emit x w).
Proof. apply consistent_same; reflexivity. Qed.

Lemma consistent_emit_all xs w : consistent w -> consistent (emit_all xs w).
Proof.
  revert w. induction xs as [|x xs IH]; intros w H; simpl; [exact H|].
  apply IH. apply consistent_emit. exact H.
Qed.

Lemma consistent_set_sessions ss w :
  consistent w -> consistent (set_sessions ss w).
Proof. apply consistent_same; reflexivity. Qed.

Lemma consistent_upd_child p f w :
  (forall ch, owner (f ch) = owner ch) ->
  consistent w -> consistent (upd_child p f w).
Proof.
  intros Hf Hw. unfold upd_child.
  destruct (procs w !! p) as [ch|] eqn:Hp; [|exact Hw].
  destruct Hw as [H1 H2 H3]. split; simpl; [|exact H2|exact H3].
  intros a so q Ha Hq. destruct (H1 a so q Ha Hq) as (ch0 & Hch0 & Hown).
  destruct (decide (p = q)) as [->|Hne].
  - exists (f ch). split.
    + apply list_lookup_insert_eq. eapply lookup_lt_Some. exact Hp.
    + rewrite Hf. congruence.
  - exists ch0. split; [|exact Hown].
    rewrite list_lookup_insert_ne by exact Hne. exact Hch0.
Qed.

Lemma consistent_clear a w : consistent w -> consistent (clear a w).
Proof.
  intros Hw. unfold clear.
  destruct (heap w !! a) as [so|] eqn:Ha; [|exact Hw].
  apply consistent_emit. destruct Hw as [H1 H2 H3].
  split; simpl; [|exact H2|].
  - intros a' so' q Hl Hq.
    apply list_lookup_insert_Some in Hl as [(-> & <- & _)|(Hne & Hl)].
    + discriminate.
    + exact (H1 a' so' q Hl Hq).
  - intros a' Hin. rewrite length_insert. exact (H3 a' Hin).
Qed.

Lemma consistent_write a data w : consistent w -> consistent (write a data w).
Proof.
  intros Hw. unfold write.
  destruct (heap w !! a) as [so|]; [|exact Hw].
  destruct (ffmpeg so) as [p|]; [|exact Hw].
  destruct (procs w !! p) as [ch|]; [|exact Hw].
  destruct (stdin_writable ch); [|exact Hw].
  apply consistent_emit. apply consistent_upd_child; [reflexivity|exact Hw].
Qed.

Lemma consistent_stop a w : consistent w -> consistent (stop a w).
Proof.
  intros Hw. unfold stop.
  destruct (heap w !! a) as [so|]; [|exact Hw].
  destruct (ffmpeg so) as [p|]; [|exact Hw].
  apply consistent_clear, consistent_emit.
  apply consistent_upd_child; [reflexivity|].
  apply consistent_emit.
  apply consistent_upd_child; [reflexivity|].
  apply consistent_emit. exact Hw.
Qed.

Lemma consistent_on_child_close a code w :
  consistent w -> consistent (on_child_close a code w).
Proof.
  intros Hw. unfold on_child_close.
  destruct (heap w !! a) as [so|]; [|exact Hw].
  apply consistent_clear, consistent_emit. exact Hw.
Qed.

Lemma consistent_on_child_error a w :
  consistent w -> consistent (on_child_error a w).
Proof.
  intros Hw. unfold on_child_error.
  destruct (heap w !! a) as [so|]; [|exact Hw].
  apply consistent_clear, consistent_emit. exact Hw.
Qed.

(** A new child is appended to the processes and handed to its owner. *)
Lemma consistent_adopt a so url r w :
  heap w !! a = Some so ->
  consistent w ->
  consistent
    (set_heap (<[a := with_child (Some (length (procs w))) true so]> (heap w))
              (set_procs (procs w ++ [new_child a url r]) w)).
Proof.
  intros Ha [H1 H2 H3]. split; simpl; [|exact H2|].
  - intros a' so' q Hl Hq.
    apply list_lookup_insert_Some in Hl as [(-> & <- & _)|(Hne & Hl)].
    + simpl in Hq. injection Hq as <-.
      exists (new_child a' url r). split; [|reflexivity].
      apply list_lookup_middle. reflexivity.
    + destruct (H1 a' so' q Hl Hq) as (ch & Hch & Hown).
      exists ch. split; [|exact Hown].
      apply lookup_app_l_Some. exact Hch.
  - intros a' Hin. rewrite length_insert. exact (H3 a' Hin).
Qed.

Lemma consistent_start a w : consistent w -> consistent (start env a w).2.
Proof.
  intros Hw. unfold start.
  destruct (heap w !! a) as [so|] eqn:Ha; [|exact Hw].
  destruct (ffmpeg so) as [p|]; simpl; [apply consistent_emit; exact Hw|].
  set (w2 := count_spawn_call _).
  assert (Hw2 : consistent w2).
  { unfold w2. eapply consistent_same; [..|exact Hw]; reflexivity. }
  destruct (spawn_outcome env (spawn_calls w)); simpl; try exact Hw2.
  - apply (consistent_adopt a so _ SpawnOk w2 Ha Hw2).
  - apply (consistent_adopt a so _ SpawnFailsAsync w2 Ha Hw2).
Qed.

(** [new StreamOutput(...)]: the object goes last in the heap. *)
Lemma consistent_alloc so w :
  ffmpeg so = None -> consistent w -> consistent (set_heap (heap w ++ [so]) w).
Proof.
  intros Hso [H1 H2 H3]. split; simpl; [|exact H2|].
  - intros a so' q Hl Hq.
    apply lookup_app_Some in Hl as [Hl|[_ Hl]].
    + exact (H1 a so' q Hl Hq).
    + destruct (a - length (heap w)); simpl in Hl; [|rewrite lookup_nil in Hl; discriminate].
      injection Hl as <-. congruence.
  - intros a Hin. rewrite length_app. specialize (H3 a Hin). lia.
Qed.

Lemma consistent_register k a w :
  a < length (heap w) ->
  consistent w -> consistent (set_streams (JsMap.set k a (streams w)) w).
Proof.
  intros Ha [H1 H2 H3]. split; simpl; [exact H1| |].
  - apply JsMapFacts.NoDup_keys_set. exact H2.
  - intros a' Hin. apply JsMapFacts.values_set in Hin as [->|Hin]; [exact Ha|].
    exact (H3 a' Hin).
Qed.

Lemma consistent_unregister k w :
  consistent w -> consistent (set_streams (JsMap.delete k (streams w)) w).
Proof.
  intros [H1 H2 H3]. split; simpl; [exact H1| |].
  - apply JsMapFacts.NoDup_keys_delete. exact H2.
  - intros a' Hin. apply H3. exact (JsMapFacts.values_delete a' k _ Hin).
Qed.

Lemma start_heap_length a w :
  length (heap (start env a w).2) = length (heap w).
Proof.
  unfold start. destruct (heap w !! a) as [so|]; [|reflexivity].
  destruct (ffmpeg so); [reflexivity|].
  destruct (spawn_outcome env (spawn_calls _)); simpl;
    rewrite ?length_insert; reflexivity.
Qed.

Lemma consistent_configure c s payload w :
  consistent w -> consistent (configure env c s payload w).
Proof.
  intros Hw. unfold configure, invalid_config, no_stream_key.
  destruct payload as [|field]; [apply consistent_emit; exact Hw|].
  destruct (loadStreamConfig env (platform_of field)) as [errors loaded].
  set (w3 := emit_all _ _).
  assert (Hw3 : consistent w3).
  { apply consistent_emit_all, consistent_emit, consistent_set_sessions, Hw. }
  destruct loaded as [[streamConfig|]|]; try (apply consistent_emit; exact Hw3).
  destruct (streamConfig !! "STREAM_KEY") as [key|];
    [|apply consistent_emit; exact Hw3].
  destruct (negb (JsString.truthy key)); [apply consistent_emit; exact Hw3|].
  set (w4 := set_sessions _ _).
  assert (Hw4 : consistent w4).
  { apply consistent_set_sessions, consistent_alloc; [reflexivity|exact Hw3]. }
  pose proof (consistent_start (length (heap w3)) w4 Hw4) as Hw5.
  pose proof (start_heap_length (length (heap w3)) w4) as Hlen.
  destruct (start env (length (heap w3)) w4) as [[[]|] w5]; simpl in *.
  - apply consistent_emit, consistent_register; [|exact Hw5].
    rewrite Hlen, length_app. simpl. lia.
  - apply consistent_emit. exact Hw5.
Qed.

Lemma consistent_handle e w : consistent w -> consistent (handle env e w).
Proof.
  intros Hw. destruct e as [|c m|c|c|p|p code|p]; simpl.
  - apply consistent_emit, consistent_set_sessions, Hw.
  - unfold on_message.
    destruct (sessions w !! c) as [s|]; [|exact Hw].
    destruct (connected s); [|exact Hw].
    destruct (streamOutput s) as [a|], m as [payload|data]; try exact Hw.
    + apply consistent_write, Hw.
    + apply consistent_configure, Hw.
  - unfold on_close.
    destruct (sessions w !! c) as [s|]; [|exact Hw].
    destruct (connected s); [|exact Hw].
    destruct (streamOutput s) as [a|].
    + apply consistent_unregister, consistent_stop, consistent_emit,
        consistent_set_sessions, Hw.
    + apply consistent_emit, consistent_set_sessions, Hw.
  - unfold on_error.
    destruct (sessions w !! c) as [s|]; [|exact Hw].
    destruct (connected s); [|exact Hw].
    apply consistent_emit, Hw.
  - apply consistent_upd_child; [reflexivity|exact Hw].
  - destruct (procs w !! p) as [ch|]; [|exact Hw].
    destruct (close_emitted ch); [exact Hw|].
    apply consistent_on_child_close, consistent_upd_child; [reflexivity|exact Hw].
  - destruct (procs w !! p) as [ch|]; [|exact Hw].
    apply consistent_on_child_error, Hw.
Qed.

Lemma consistent_run es w : consistent w -> consistent (run env es w).
Proof.
  revert w. induction es as [|e es IH]; intros w Hw; simpl; [exact Hw|].
  apply IH, consistent_handle, Hw.
Qed.

Lemma reachable_consistent w : reachable env w -> consistent w.
Proof. intros [es ->]. apply consistent_run, consistent_initial. Qed.

End Invariant.

(** ** The supervisor *)

Section Supervisor.

Variable env : environment.

Lemma clear_lookup a so w :
  heap w !! a = Some so ->
  heap (clear a w) !! a = Some (with_child None false so).
Proof.
  intros Ha. unfold clear. rewrite Ha. simpl.
  apply list_lookup_insert_eq. eapply lookup_lt_Some. exact Ha.
Qed.

Lemma feeds_None_write a data w : feeds w a = None -> write a data w = w.
Proof.
  unfold feeds, write. intros H.
  destruct (heap w !! a) as [so|]; [|reflexivity].
  destruct (ffmpeg so) as [p|]; [|reflexivity].
  destruct (procs w !! p) as [ch|]; [|reflexivity].
  destruct (stdin_writable ch); [discriminate|reflexivity].
Qed.

Lemma feeds_Some_write a data p w :
  feeds w a = Some p ->
  exists ch,
    procs w !! p = Some ch /\ stdin_writable ch = true /\
    write a data w
    = emit (StdinWrite p data) (set_procs (<[p := receive data ch]> (procs w)) w).
Proof.
  unfold feeds, write, upd_child. intros H.
  destruct (heap w !! a) as [so|]; [|discriminate].
  destruct (ffmpeg so) as [q|]; [|discriminate].
  destruct (procs w !! q) as [ch|] eqn:Hq; [|discriminate].
  destruct (stdin_writable ch) eqn:Hw; [|discriminate].
  injection H as ->. exists ch. rewrite Hq. auto.
Qed.

Lemma feeds_cleared a w :
  (forall so, heap w !! a = Some so -> ffmpeg so = None) -> feeds w a = None.
Proof.
  intros H. unfold feeds. destruct (heap w !! a) as [so|]; [|reflexivity].
  rewrite (H so eq_refl). reflexivity.
Qed.

Lemma feeds_clear a w : feeds (clear a w) a = None.
Proof.
  apply feeds_cleared. intros so' Hso'.
  destruct (heap w !! a) as [so|] eqn:Ha.
  - rewrite (clear_lookup a so w Ha) in Hso'. injection Hso' as <-. reflexivity.
  - unfold clear in Hso'. rewrite Ha in Hso'. congruence.
Qed.

Lemma feeds_stop a w : feeds (stop a w) a = None.
Proof.
  unfold stop. destruct (heap w !! a) as [so|] eqn:Ha.
  - destruct (ffmpeg so) as [p|] eqn:Hp; [apply feeds_clear|].
    apply feeds_cleared. intros so' Hso'. congruence.
  - apply feeds_cleared. intros so' Hso'. congruence.
Qed.

Lemma feeds_on_child_close a code w : feeds (on_child_close a code w) a = None.
Proof.
  unfold on_child_close. destruct (heap w !! a) as [so|] eqn:Ha.
  - apply feeds_clear.
  - apply feeds_cleared. intros so' Hso'. congruence.
Qed.

Lemma feeds_on_child_error a w : feeds (on_child_error a w) a = None.
Proof.
  unfold on_child_error. destruct (heap w !! a) as [so|] eqn:Ha.
  - apply feeds_clear.
  - apply feeds_cleared. intros so' Hso'. congruence.
Qed.

Lemma feeds_child_exit a so p w :
  heap w !! a = Some so -> ffmpeg so = Some p ->
  feeds (handle env (ChildExit p) w) a = None.
Proof.
  intros Ha Hp. simpl. unfold feeds, upd_child.
  destruct (procs w !! p) as [ch|] eqn:Hch; simpl; rewrite Ha, Hp.
  - rewrite list_lookup_insert_eq by (eapply lookup_lt_Some; exact Hch).
    reflexivity.
  - rewrite Hch. reflexivity.
Qed.

End Supervisor.

(** ** write *)

(** C8.  [write(chunk)] hands the chunk to the child's stdin exactly when
    the StreamOutput holds a child whose stdin is writable: the child then
    has received one more chunk, this one, and nothing else changes but the
    trace.  In every other case the world is left as it was, and [write],
    a total function, has given its caller no error: so after [stop()],
    after the child's 'close' or 'error' listener has run, and once the
    process has ended and its stdin pipe is destroyed. *)
Theorem write_forwards_or_drops
    (env : environment) (a : addr) (data : chunk) (w : world) :
  (forall p : pid,
      feeds w a = Some p ->
      exists ch : child,
        procs w !! p = Some ch /\
        procs (write a data w) = <[p := receive data ch]> (procs w) /\
        stdin_received (receive data ch) = (stdin_received ch ++ [data])%list /\
        trace (write a data w) = (trace w ++ [StdinWrite p data])%list /\
        untraced (set_procs (procs w) (write a data w)) = untraced w) /\
  (feeds w a = None -> write a data w = w) /\
  write a data (stop a w) = stop a w /\
  (forall (p : pid) (ch : child) (code : string),
      procs w !! p = Some ch -> owner ch = a -> close_emitted ch = false ->
      write a data (handle env (ChildClose p code) w)
      = handle env (ChildClose p code) w) /\
  (forall (p : pid) (ch : child),
      procs w !! p = Some ch -> owner ch = a ->
      write a data (handle env (ChildError p) w) = handle env (ChildError p) w) /\
  (forall (so : StreamOutput) (p : pid),
      heap w !! a = Some so -> ffmpeg so = Some p ->
      write a data (handle env (ChildExit p) w) = handle env (ChildExit p) w).
Proof.
  repeat split.
  - intros p Hp. destruct (feeds_Some_write a data p w Hp) as (ch & Hch & _ & ->).
    exists ch. repeat split; assumption || reflexivity.
  - apply feeds_None_write.
  - apply feeds_None_write, feeds_stop.
  - intros p ch code Hch <- Hclosed. apply feeds_None_write.
    simpl. rewrite Hch, Hclosed. apply feeds_on_child_close.
  - intros p ch Hch <-. apply feeds_None_write.
    simpl. rewrite Hch. apply feeds_on_child_error.
  - intros so p Ha Hp. apply feeds_None_write.
    exact (feeds_child_exit env a so p w Ha Hp).
Qed.

Lemma write_forwards_or_drops_witness :
  feeds (demo_streaming SpawnOk) 0 = Some 0 /\
  exists ch : child,
    procs (demo_streaming SpawnOk) !! 0 = Some ch /\
    procs (write 0 [Byte.x1a; Byte.x45] (demo_streaming SpawnOk))
    = <[0 := receive [Byte.x1a; Byte.x45] ch]> (procs (demo_streaming SpawnOk)) /\
    stdin_received (receive [Byte.x1a; Byte.x45] ch)
    = (stdin_received ch ++ [[Byte.x1a; Byte.x45]])%list /\
    trace (write 0 [Byte.x1a; Byte.x45] (demo_streaming SpawnOk))
    = (trace (demo_streaming SpawnOk) ++ [StdinWrite 0 [Byte.x1a; Byte.x45]])%list /\
    untraced (set_procs (procs (demo_streaming SpawnOk))
                        (write 0 [Byte.x1a; Byte.x45] (demo_streaming SpawnOk)))
    = untraced (demo_streaming SpawnOk).
Proof.
  split; [vm_compute; reflexivity|].
  apply (proj1 (write_forwards_or_drops (demo_env SpawnOk) 0
                  [Byte.x1a; Byte.x45] (demo_streaming SpawnOk))).
  vm_compute; reflexivity.
Defined.

(** ** Forwarding of the binary frames *)

Section Forwarding.

Variable env : environment.

(** One binary frame on a streaming session. *)
Lemma binary_frame_step c s a p data w :
  sessions w !! c = Some s -> connected s = true -> streamOutput s = Some a ->
  feeds w a = Some p ->
  exists ch,
    procs w !! p = Some ch /\ stdin_writable ch = true /\
    handle env (WsMessage c (Binary data)) w
    = emit (StdinWrite p data) (set_procs (<[p := receive data ch]> (procs w)) w).
Proof.
  intros Hs Hc Ha Hf. simpl. unfold on_message. rewrite Hs, Hc, Ha.
  exact (feeds_Some_write a data p w Hf).
Qed.

Lemma feeds_after_receive a p ch data x w :
  feeds w a = Some p -> procs w !! p = Some ch -> stdin_writable ch = true ->
  feeds (emit x (set_procs (<[p := receive data ch]> (procs w)) w)) a = Some p.
Proof.
  unfold feeds. simpl. intros Hf Hch Hw.
  destruct (heap w !! a) as [so|]; [|discriminate].
  destruct (ffmpeg so) as [q|]; [|discriminate].
  destruct (procs w !! q) as [ch'|] eqn:Hq; [|discriminate].
  destruct (stdin_writable ch'); [|discriminate].
  injection Hf as ->.
  rewrite list_lookup_insert_eq by (eapply lookup_lt_Some; exact Hch).
  simpl. rewrite Hw. reflexivity.
Qed.

End Forwarding.

(** C6.  While a session is streaming and the stdin of its child accepts
    writes, the binary frames the client sends reach that stdin one
    [stdin.write] per frame, in the order received and with the bytes
    received: after the frames [datas], the child has received what it had
    received before followed by [datas], the trace has grown by exactly one
    [StdinWrite] per frame in that order, and the pipe still accepts
    writes. *)
Theorem chunks_forwarded_in_order
    (env : environment) (c : conn) (s : session) (a : addr) (p : pid)
    (ch : child) (datas : list chunk) (w : world) :
  sessions w !! c = Some s -> connected s = true -> streamOutput s = Some a ->
  feeds w a = Some p -> procs w !! p = Some ch ->
  let w' := run env (map (fun data => WsMessage c (Binary data)) datas) w in
  exists ch' : child,
    procs w' !! p = Some ch' /\
    stdin_received ch' = (stdin_received ch ++ datas)%list /\
    trace w' = (trace w ++ map (StdinWrite p) datas)%list /\
    feeds w' a = Some p /\
    length (procs w') = length (procs w).
Proof.
  revert w ch. induction datas as [|data datas IH]; intros w ch Hs Hc Ha Hf Hch; simpl.
  - exists ch. rewrite !app_nil_r. auto.
  - destruct (binary_frame_step env c s a p data w Hs Hc Ha Hf)
      as (ch0 & Hch0 & Hw0 & Hstep).
    assert (ch0 = ch) as -> by congruence.
    simpl in Hstep. rewrite Hstep.
    set (w1 := emit _ _).
    assert (Hch1 : procs w1 !! p = Some (receive data ch)).
    { simpl. apply list_lookup_insert_eq. eapply lookup_lt_Some. exact Hch. }
    destruct (IH w1 (receive data ch) Hs Hc Ha
                 (feeds_after_receive a p ch data _ w Hf Hch Hw0) Hch1)
      as (ch' & H1 & H2 & H3 & H4 & H5).
    exists ch'. split; [exact H1|]. split; [|split; [|split; [exact H4|]]].
    + rewrite H2. simpl. rewrite <- app_assoc. reflexivity.
    + rewrite H3. simpl. rewrite <- app_assoc. reflexivity.
    + rewrite H5. simpl. apply length_insert.
Qed.

Lemma chunks_forwarded_in_order_witness :
  exists ch' : child,
    procs (run (demo_env SpawnOk)
             (map (fun data => WsMessage 0 (Binary data))
                  [[Byte.x1a]; []; [Byte.x45; Byte.xdf]; [Byte.x1a]])
             (demo_streaming SpawnOk)) !! 0 = Some ch' /\
    stdin_received ch' = [[Byte.x1a]; []; [Byte.x45; Byte.xdf]; [Byte.x1a]].
Proof.
  destruct (chunks_forwarded_in_order (demo_env SpawnOk) 0
              {| streamOutput := Some 0; session_platform := "twitch";
                 connected := true |}
              0 0 (new_child 0 "rtmp://a.rtmp.youtube.com/live2/tw-key" SpawnOk)
              [[Byte.x1a]; []; [Byte.x45; Byte.xdf]; [Byte.x1a]]
              (demo_streaming SpawnOk))
    as (ch' & H1 & H2 & _); try (vm_compute; reflexivity).
  exists ch'. split; [exact H1 | exact H2].
Defined.

(** ** start *)

Section Start.

Variable env : environment.

(** [start()] on a StreamOutput that holds a child. *)
Lemma start_running a so p w :
  heap w !! a = Some so -> ffmpeg so = Some p ->
  start env a w
  = (Returns (), emit (ConsoleLog (tag so ++ " FFmpeg already running")) w).
Proof. intros Ha Hp. unfold start. rewrite Ha, Hp. reflexivity. Qed.

(** [start()] on a StreamOutput without a child, when [spawn] returns a
    ChildProcess. *)
Lemma start_spawns a so w :
  heap w !! a = Some so -> ffmpeg so = None ->
  spawn_outcome env (spawn_calls w) <> SpawnThrows ->
  let url := streamUrl so ++ "/" ++ streamKey so in
  let w2 :=
    count_spawn_call
      (emit (SpawnCall url)
         (emit (ConsoleLog (tag so ++ " Starting ffmpeg -> "
                            ++ streamUrl so ++ "/***")) w)) in
  start env a w
  = (Returns (),
     set_heap (<[a := with_child (Some (length (procs w))) true so]> (heap w))
       (set_procs (procs w ++ [new_child a url (spawn_outcome env (spawn_calls w))])
                  w2)).
Proof.
  intros Ha Hp Hr. unfold start. rewrite Ha, Hp. simpl.
  destruct (spawn_outcome env (spawn_calls w)); try reflexivity. congruence.
Qed.

(** [start()] on a StreamOutput without a child, when [spawn] throws: the
    exception leaves [start] before any assignment. *)
Lemma start_throws a so w :
  heap w !! a = Some so -> ffmpeg so = None ->
  spawn_outcome env (spawn_calls w) = SpawnThrows ->
  let url := streamUrl so ++ "/" ++ streamKey so in
  start env a w
  = (Throws,
     count_spawn_call
       (emit (SpawnCall url)
          (emit (ConsoleLog (tag so ++ " Starting ffmpeg -> "
                             ++ streamUrl so ++ "/***")) w))).
Proof.
  intros Ha Hp Hr. unfold start. rewrite Ha, Hp. simpl. rewrite Hr. reflexivity.
Qed.

End Start.

(** C5.  [start()] called twice in a row on a StreamOutput without a
    child, with a [spawn] that returns a ChildProcess: both calls return
    normally, [spawn] is called once and one child is created, owned by
    this StreamOutput, which holds it and is streaming; the second call
    prints its "already running" line and changes nothing else. *)
Theorem start_twice_spawns_once
    (env : environment) (a : addr) (so : StreamOutput) (w : world) :
  heap w !! a = Some so -> ffmpeg so = None ->
  spawn_outcome env (spawn_calls w) <> SpawnThrows ->
  let first := start env a w in
  let second := start env a first.2 in
  first.1 = Returns () /\ second.1 = Returns () /\
  spawnings (trace second.2) = S (spawnings (trace w)) /\
  spawn_calls second.2 = S (spawn_calls w) /\
  procs second.2
  = (procs w ++ [new_child a (streamUrl so ++ "/" ++ streamKey so)
                           (spawn_outcome env (spawn_calls w))])%list /\
  heap second.2 !! a = Some (with_child (Some (length (procs w))) true so) /\
  second.2 = emit (ConsoleLog (tag so ++ " FFmpeg already running")) first.2.
Proof.
  intros Ha Hp Hr first second.
  assert (Hlt : a < length (heap w)) by (eapply lookup_lt_Some; exact Ha).
  pose proof (start_spawns env a so w Ha Hp Hr) as H1. simpl in H1.
  unfold second, first. rewrite H1. simpl.
  erewrite start_running;
    [| simpl; apply list_lookup_insert_eq; exact Hlt | reflexivity ].
  simpl. repeat split.
  - rewrite !spawnings_app. simpl. lia.
  - apply list_lookup_insert_eq. exact Hlt.
Qed.

Lemma start_twice_spawns_once_witness :
  let w := run (demo_env SpawnOk) [WsConnection; configure_for 0 "twitch";
                                   WsClose 0; ChildClose 0 "255"] initial in
  (start (demo_env SpawnOk) 0 w).1 = Returns () /\
  (start (demo_env SpawnOk) 0 (start (demo_env SpawnOk) 0 w).2).1 = Returns () /\
  spawnings (trace (start (demo_env SpawnOk) 0 (start (demo_env SpawnOk) 0 w).2).2)
  = S (spawnings (trace w)).
Proof.
  intros w.
  destruct (start_twice_spawns_once (demo_env SpawnOk) 0
              {| platform := "twitch"; streamKey := "tw-key";
                 streamUrl := "rtmp://a.rtmp.youtube.com/live2";
                 ffmpeg := None; isStreaming := false |} w)
    as (H1 & H2 & H3 & _).
  - vm_compute; reflexivity.
  - reflexivity.
  - simpl. discriminate.
  - split; [exact H1|]. split; [exact H2 | exact H3].
Defined.

(** ** The configuration handshake *)

Section Configure.

Variable env : environment.

Lemma emit_all_trace xs w :
  emit_all xs w
  = {| heap := heap w; procs := procs w; streams := streams w;
       sessions := sessions w; spawn_calls := spawn_calls w;
       trace := trace w ++ xs |}.
Proof.
  revert w. induction xs as [|x xs IH]; intros w; simpl.
  - rewrite app_nil_r. destruct w; reflexivity.
  - rewrite IH. simpl. rewrite <- app_assoc. reflexivity.
Qed.

(** Configuration without resolvable credentials. *)
Lemma configure_unresolved c s field w :
  unresolved env (platform_of field) ->
  let p := platform_of field in
  configure env c s (ConfigObject field) w
  = {| heap := heap w; procs := procs w; streams := streams w;
       sessions := <[c := awaiting s p]> (sessions w);
       spawn_calls := spawn_calls w;
       trace := trace w
                ++ [ConsoleLog ("Configuring stream for platform: " ++ p)]
                ++ map ConsoleError (loadStreamConfig env p).1
                ++ [WsSend c (ErrorReply ("No stream key found for " ++ p))] |}.
Proof.
  intros Hun p. unfold configure, no_stream_key. fold p. fold (awaiting s p).
  unfold loadStreamConfig.
  destruct Hun as [Hfs|(content & Hfs & Hkey)]; fold p in Hfs; rewrite Hfs.
  - rewrite emit_all_trace. simpl. unfold emit. simpl.
    rewrite <- !app_assoc. reflexivity.
  - rewrite emit_all_trace. simpl. unfold prop_or in Hkey.
    destruct (parse_env content !! "STREAM_KEY") as [key|].
    + destruct key; [|discriminate]. simpl. unfold emit. simpl.
      rewrite app_nil_r, <- !app_assoc. reflexivity.
    + unfold emit. simpl. rewrite app_nil_r, <- !app_assoc. reflexivity.
Qed.

(** Configuration with resolvable credentials, up to the call of
    [start]. *)
Lemma configure_resolved c s field streamConfig key w :
  resolves env (platform_of field) streamConfig key ->
  let p := platform_of field in
  let a := length (heap w) in
  let w4 :=
    {| heap := heap w ++ [fresh p key streamConfig]; procs := procs w;
       streams := streams w;
       sessions := <[c := holding s p a]> (sessions w);
       spawn_calls := spawn_calls w;
       trace := trace w ++ [ConsoleLog ("Configuring stream for platform: " ++ p)] |} in
  configure env c s (ConfigObject field) w
  = match start env a w4 with
    | (Throws, w5) => invalid_config w5
    | (Returns _, w5) =>
        emit (WsSend c (StatusStreaming p))
             (set_streams (JsMap.set p a (streams w5)) w5)
    end.
Proof.
  intros (content & Hfs & Hcfg & Hkey & Htruthy) p a w4.
  unfold configure, loadStreamConfig. fold p. fold p in Hfs.
  rewrite Hfs, Hcfg, Hkey, Htruthy. simpl.
  unfold w4, a, fresh, holding, set_sessions, set_heap, emit. simpl.
  rewrite list_insert_insert_eq. reflexivity.
Qed.

(** ... when [spawn] returns a ChildProcess. *)
Lemma configure_streaming c s field streamConfig key w :
  resolves env (platform_of field) streamConfig key ->
  spawn_outcome env (spawn_calls w) <> SpawnThrows ->
  let p := platform_of field in
  let a := length (heap w) in
  let so := fresh p key streamConfig in
  let url := streamUrl so ++ "/" ++ key in
  configure env c s (ConfigObject field) w
  = {| heap := heap w ++ [with_child (Some (length (procs w))) true so];
       procs := procs w ++ [new_child a url (spawn_outcome env (spawn_calls w))];
       streams := JsMap.set p a (streams w);
       sessions := <[c := holding s p a]> (sessions w);
       spawn_calls := S (spawn_calls w);
       trace := trace w
                ++ [ConsoleLog ("Configuring stream for platform: " ++ p);
                    ConsoleLog (tag so ++ " Starting ffmpeg -> "
                                ++ streamUrl so ++ "/***");
                    SpawnCall url;
                    WsSend c (StatusStreaming p)] |}.
Proof.
  intros Hres Hspawn p a so url.
  rewrite (configure_resolved c s field streamConfig key w Hres). fold p a so.
  assert (Hso : ((heap w ++ [so])%list : list StreamOutput) !! a = Some so)
    by (apply list_lookup_middle; reflexivity).
  match goal with
  | |- context [start env a ?w4] =>
      rewrite (start_spawns env a so w4 Hso eq_refl Hspawn)
  end.
  simpl. unfold emit, set_streams, set_heap, set_procs, count_spawn_call. simpl.
  f_equal.
  - unfold a. rewrite <- (Nat.add_0_r (length (heap w))) at 1.
    rewrite insert_app_r. reflexivity.
  - rewrite <- !app_assoc. reflexivity.
Qed.

(** ... when [spawn] throws. *)
Lemma configure_spawn_throws c s field streamConfig key w :
  resolves env (platform_of field) streamConfig key ->
  spawn_outcome env (spawn_calls w) = SpawnThrows ->
  let p := platform_of field in
  let a := length (heap w) in
  let so := fresh p key streamConfig in
  let url := streamUrl so ++ "/" ++ key in
  configure env c s (ConfigObject field) w
  = {| heap := heap w ++ [so];
       procs := procs w;
       streams := streams w;
       sessions := <[c := holding s p a]> (sessions w);
       spawn_calls := S (spawn_calls w);
       trace := trace w
                ++ [ConsoleLog ("Configuring stream for platform: " ++ p);
                    ConsoleLog (tag so ++ " Starting ffmpeg -> "
                                ++ streamUrl so ++ "/***");
                    SpawnCall url;
                    ConsoleError "Invalid config message:"] |}.
Proof.
  intros Hres Hspawn p a so url.
  rewrite (configure_resolved c s field streamConfig key w Hres). fold p a so.
  assert (Hso : ((heap w ++ [so])%list : list StreamOutput) !! a = Some so)
    by (apply list_lookup_middle; reflexivity).
  match goal with
  | |- context [start env a ?w4] =>
      rewrite (start_throws env a so w4 Hso eq_refl Hspawn)
  end.
  unfold invalid_config, emit, count_spawn_call. simpl.
  rewrite <- !app_assoc. reflexivity.
Qed.

(** A text frame on an open connection that awaits its configuration. *)
Lemma handle_config_frame c s payload w :
  sessions w !! c = Some s -> connected s = true -> streamOutput s = None ->
  handle env (WsMessage c (Text payload)) w = configure env c s payload w.
Proof.
  intros Hs Hc Ha. simpl. unfold on_message. rewrite Hs, Hc, Ha. reflexivity.
Qed.

End Configure.

(** C7.  A configuration message for a platform whose credentials do not
    resolve (no credential file, or a file without a non-empty STREAM_KEY)
    is answered with the error frame, the only frame sent; [spawn] is not
    called, no StreamOutput and no process is created, the registry is
    unchanged, the connection stays open and the session still has no
    StreamOutput.  A later configuration message on the same connection
    whose credentials resolve then makes the session hold a running
    StreamOutput, registered under its platform, and is acknowledged with
    the status frame (when [spawn] returns a ChildProcess). *)
Theorem unresolved_platform_keeps_awaiting
    (env : environment) (c : conn) (s : session) (field : option string)
    (w : world) :
  sessions w !! c = Some s -> connected s = true -> streamOutput s = None ->
  unresolved env (platform_of field) ->
  let p := platform_of field in
  let w1 := handle env (WsMessage c (Text (ConfigObject field))) w in
  trace w1
  = (trace w ++ [ConsoleLog ("Configuring stream for platform: " ++ p)]
     ++ map ConsoleError (loadStreamConfig env p).1
     ++ [WsSend c (ErrorReply ("No stream key found for " ++ p))])%list /\
  heap w1 = heap w /\ procs w1 = procs w /\ streams w1 = streams w /\
  spawn_calls w1 = spawn_calls w /\
  sessions w1 !! c
  = Some {| streamOutput := None; session_platform := p; connected := true |} /\
  forall (field2 : option string) (streamConfig : config) (key : string),
    resolves env (platform_of field2) streamConfig key ->
    spawn_outcome env (spawn_calls w) <> SpawnThrows ->
    let p2 := platform_of field2 in
    let a := length (heap w) in
    let so := fresh p2 key streamConfig in
    let w2 := handle env (WsMessage c (Text (ConfigObject field2))) w1 in
    sessions w2 !! c
    = Some {| streamOutput := Some a; session_platform := p2; connected := true |} /\
    heap w2 !! a = Some (with_child (Some (length (procs w))) true so) /\
    procs w2 !! length (procs w)
    = Some (new_child a (streamUrl so ++ "/" ++ key)
                      (spawn_outcome env (spawn_calls w))) /\
    JsMap.get p2 (streams w2) = Some a /\
    trace w2
    = (trace w1
       ++ [ConsoleLog ("Configuring stream for platform: " ++ p2);
           ConsoleLog (tag so ++ " Starting ffmpeg -> " ++ streamUrl so ++ "/***");
           SpawnCall (streamUrl so ++ "/" ++ key);
           WsSend c (StatusStreaming p2)])%list.
Proof.
  intros Hs Hc Ha Hun p w1.
  assert (Hlt : c < length (sessions w)) by (eapply lookup_lt_Some; exact Hs).
  assert (Hw1 : w1 = configure env c s (ConfigObject field) w)
    by (apply handle_config_frame; assumption).
  rewrite (configure_unresolved env c s field w Hun) in Hw1. fold p in Hw1.
  assert (Hs1 : sessions w1 !! c = Some (awaiting s p)).
  { rewrite Hw1. simpl. apply list_lookup_insert_eq. exact Hlt. }
  split; [rewrite Hw1; reflexivity|].
  split; [rewrite Hw1; reflexivity|].
  split; [rewrite Hw1; reflexivity|].
  split; [rewrite Hw1; reflexivity|].
  split; [rewrite Hw1; reflexivity|].
  split; [rewrite Hs1; unfold awaiting; rewrite Hc; reflexivity|].
  intros field2 streamConfig key Hres Hspawn p2 a so w2.
  assert (Hw2 : w2 = configure env c (awaiting s p) (ConfigObject field2) w1)
    by (apply handle_config_frame; [exact Hs1 | exact Hc | reflexivity]).
  rewrite (configure_streaming env c (awaiting s p) field2 streamConfig key w1 Hres)
    in Hw2 by (rewrite Hw1; exact Hspawn).
  fold p2 in Hw2.
  assert (Hh : heap w1 = heap w) by (rewrite Hw1; reflexivity).
  assert (Hp : procs w1 = procs w) by (rewrite Hw1; reflexivity).
  assert (Hn : spawn_calls w1 = spawn_calls w) by (rewrite Hw1; reflexivity).
  rewrite Hh, Hp, Hn in Hw2. fold a so in Hw2.
  rewrite Hw2. simpl. repeat split.
  - rewrite list_lookup_insert_eq
      by (rewrite Hw1; simpl; rewrite length_insert; exact Hlt).
    unfold holding, awaiting. simpl. rewrite Hc. reflexivity.
  - apply list_lookup_middle. reflexivity.
  - apply list_lookup_middle. reflexivity.
  - apply JsMapFacts.get_set_eq.
Qed.

Lemma unresolved_platform_keeps_awaiting_witness :
  let env := demo_env SpawnOk in
  let w := run env [WsConnection] initial in
  let w1 := handle env (configure_for 0 "nokey") w in
  let w2 := handle env (configure_for 0 "kick") w1 in
  trace w1
  = [ConsoleLog "Browser connected";
     ConsoleLog "Configuring stream for platform: nokey";
     WsSend 0 (ErrorReply "No stream key found for nokey")] /\
  JsMap.get "kick" (streams w2) = Some 0.
Proof.
  intros env w w1 w2.
  destruct (unresolved_platform_keeps_awaiting env 0
              {| streamOutput := None; session_platform := "youtube";
                 connected := true |} (Some "nokey") w)
    as (H1 & _ & _ & _ & _ & _ & H2).
  - reflexivity.
  - reflexivity.
  - reflexivity.
  - right. exists "STREAM_URL=rtmp://live.example/app".
    split; vm_compute; reflexivity.
  - split; [exact H1|].
    destruct (H2 (Some "kick")
                 (parse_env "STREAM_KEY=kick-key
STREAM_URL=rtmps://ingest.kick.example/app") "kick-key")
      as (_ & _ & _ & H3 & _).
    + exists "STREAM_KEY=kick-key
STREAM_URL=rtmps://ingest.kick.example/app".
      repeat split; vm_compute; reflexivity.
    + simpl. discriminate.
    + exact H3.
Defined.

(** ** The destination endpoint *)

Lemma spawn_throws_or_not (r : spawn_result) : r = SpawnThrows \/ r <> SpawnThrows.
Proof. destruct r; [right; discriminate | right; discriminate | left; reflexivity]. Qed.

(** C4, as the server has it.  When the credential file of a platform
    gives a stream key and no STREAM_URL (none, or an empty one), the
    StreamOutput constructed for the session is given the one built-in
    default, [rtmp://a.rtmp.youtube.com/live2], whatever the platform
    identifier is; and when [spawn] returns a ChildProcess, ffmpeg's
    destination is that default followed by [/] and the key. *)
Theorem endpoint_falls_back_to_one_default
    (env : environment) (c : conn) (s : session) (field : option string)
    (streamConfig : config) (key : string) (w : world) :
  sessions w !! c = Some s -> connected s = true -> streamOutput s = None ->
  resolves env (platform_of field) streamConfig key ->
  streamConfig !! "STREAM_URL" = None \/ streamConfig !! "STREAM_URL" = Some "" ->
  let w1 := handle env (WsMessage c (Text (ConfigObject field))) w in
  (exists so : StreamOutput,
      heap w1 !! length (heap w) = Some so /\
      sessions w1 !! c
      = Some {| streamOutput := Some (length (heap w));
                session_platform := platform_of field; connected := true |} /\
      platform so = platform_of field /\
      streamKey so = key /\
      streamUrl so = "rtmp://a.rtmp.youtube.com/live2") /\
  (spawn_outcome env (spawn_calls w) <> SpawnThrows ->
   exists ch : child,
     procs w1 !! length (procs w) = Some ch /\
     owner ch = length (heap w) /\
     rtmpUrl ch = "rtmp://a.rtmp.youtube.com/live2" ++ "/" ++ key).
Proof.
  intros Hs Hc Ha Hres Hurl w1.
  assert (Hlt : c < length (sessions w)) by (eapply lookup_lt_Some; exact Hs).
  assert (Hw1 : w1 = configure env c s (ConfigObject field) w)
    by (apply handle_config_frame; assumption).
  assert (Hdefault : prop_or streamConfig "STREAM_URL" default_stream_url
                     = "rtmp://a.rtmp.youtube.com/live2").
  { unfold prop_or. destruct Hurl as [->| ->]; reflexivity. }
  destruct (spawn_throws_or_not (spawn_outcome env (spawn_calls w))) as [Ht|Hr].
  - rewrite (configure_spawn_throws env c s field streamConfig key w Hres Ht) in Hw1.
    split; [|intros Hr; contradiction].
    exists (fresh (platform_of field) key streamConfig).
    rewrite Hw1. simpl. repeat split.
    + apply list_lookup_middle. reflexivity.
    + rewrite list_lookup_insert_eq by exact Hlt.
      unfold holding. rewrite Hc. reflexivity.
    + exact Hdefault.
  - rewrite (configure_streaming env c s field streamConfig key w Hres Hr) in Hw1.
    split.
    + exists (with_child (Some (length (procs w))) true
                (fresh (platform_of field) key streamConfig)).
      rewrite Hw1. simpl. repeat split.
      * apply list_lookup_middle. reflexivity.
      * rewrite list_lookup_insert_eq by exact Hlt.
        unfold holding. rewrite Hc. reflexivity.
      * exact Hdefault.
    + intros _. eexists. rewrite Hw1. simpl. split.
      * apply list_lookup_middle. reflexivity.
      * simpl. rewrite Hdefault. split; reflexivity.
Qed.

Lemma endpoint_falls_back_to_one_default_witness :
  let env := demo_env SpawnOk in
  let w := run env [WsConnection] initial in
  exists so : StreamOutput,
    heap (handle env (configure_for 0 "twitch") w) !! 0 = Some so /\
    platform so = "twitch" /\
    streamUrl so = "rtmp://a.rtmp.youtube.com/live2".
Proof.
  intros env w.
  destruct (endpoint_falls_back_to_one_default env 0
              {| streamOutput := None; session_platform := "youtube";
                 connected := true |} (Some "twitch")
              (parse_env "# twitch
STREAM_KEY = tw-key
") "tw-key" w) as [(so & H1 & _ & H2 & _ & H3) _].
  - reflexivity.
  - reflexivity.
  - reflexivity.
  - exists "# twitch
STREAM_KEY = tw-key
". repeat split; vm_compute; reflexivity.
  - left. vm_compute. reflexivity.
  - exists so. split; [exact H1|]. split; [exact H2 | exact H3].
Defined.

(** C4 fails as stated: the fallback does not depend on the platform
    identifier.  With a credential file that gives only a key, twitch is
    sent to the YouTube ingest URL, the endpoint youtube falls back to. *)
Lemma twitch_falls_back_to_youtube_endpoint :
  let env := demo_env SpawnOk in
  let twitch := run env [WsConnection; configure_for 0 "twitch"] initial in
  let youtube := run env [WsConnection; configure_for 0 "youtube"] initial in
  streamUrl <$> heap twitch !! 0 = Some "rtmp://a.rtmp.youtube.com/live2" /\
  streamUrl <$> heap youtube !! 0 = Some "rtmp://a.rtmp.youtube.com/live2" /\
  rtmpUrl <$> procs twitch !! 0 = Some "rtmp://a.rtmp.youtube.com/live2/tw-key" /\
  ~ (exists builtin : string -> string,
        builtin "twitch" <> builtin "youtube" /\
        streamUrl <$> heap twitch !! 0 = Some (builtin "twitch") /\
        streamUrl <$> heap youtube !! 0 = Some (builtin "youtube")).
Proof.
  intros env twitch youtube.
  assert (Ht : streamUrl <$> heap twitch !! 0 = Some "rtmp://a.rtmp.youtube.com/live2")
    by (vm_compute; reflexivity).
  assert (Hy : streamUrl <$> heap youtube !! 0 = Some "rtmp://a.rtmp.youtube.com/live2")
    by (vm_compute; reflexivity).
  split; [exact Ht|]. split; [exact Hy|]. split; [vm_compute; reflexivity|].
  intros (builtin & Hne & H1 & H2). rewrite Ht in H1. rewrite Hy in H2.
  congruence.
Qed.

(** ** The registry *)

(** C9.  In every world the server can reach, the registry has one entry
    per platform key.  A configuration message for a platform that is
    already registered is not rejected: it is acknowledged with the status
    frame, and the entry of that platform now holds the new StreamOutput,
    in the place of the old one; the keys of the registry are as before.
    The StreamOutput registered before and its child are not touched. *)
Theorem same_platform_overwrites_entry (env : environment) (w : world) :
  reachable env w ->
  NoDup (JsMap.keys (streams w)) /\
  forall (c : conn) (s : session) (field : option string)
         (streamConfig : config) (key : string) (a0 : addr),
    sessions w !! c = Some s -> connected s = true -> streamOutput s = None ->
    resolves env (platform_of field) streamConfig key ->
    spawn_outcome env (spawn_calls w) <> SpawnThrows ->
    JsMap.get (platform_of field) (streams w) = Some a0 ->
    let p := platform_of field in
    let a := length (heap w) in
    let w' := handle env (WsMessage c (Text (ConfigObject field))) w in
    a0 <> a /\
    JsMap.get p (streams w') = Some a /\
    JsMap.keys (streams w') = JsMap.keys (streams w) /\
    NoDup (JsMap.keys (streams w')) /\
    (exists earlier : list action,
        trace w' = (trace w ++ earlier ++ [WsSend c (StatusStreaming p)])%list /\
        forall r : reply, WsSend c r ∉ earlier) /\
    heap w' !! a0 = heap w !! a0 /\
    (forall q : pid, q < length (procs w) -> procs w' !! q = procs w !! q).
Proof.
  intros Hreach. pose proof (reachable_consistent env w Hreach) as Hcons.
  split; [exact (keys_unique w Hcons)|].
  intros c s field streamConfig key a0 Hs Hc Ha Hres Hspawn Hget p a w'.
  assert (Hw' : w' = configure env c s (ConfigObject field) w)
    by (apply handle_config_frame; assumption).
  rewrite (configure_streaming env c s field streamConfig key w Hres Hspawn) in Hw'.
  fold p a in Hw'.
  assert (Ha0 : a0 < length (heap w)).
  { apply (registered_allocated w Hcons).
    exact (JsMapFacts.get_Some_in_values _ _ _ Hget). }
  rewrite Hw'. simpl. repeat split.
  - unfold a. lia.
  - apply JsMapFacts.get_set_eq.
  - exact (JsMapFacts.keys_set_present p a a0 _ Hget).
  - apply JsMapFacts.NoDup_keys_set. exact (keys_unique w Hcons).
  - eexists [_; _; _]. split; [reflexivity|].
    intros r Hin. repeat (apply elem_of_cons in Hin as [Hin|Hin]; [discriminate|]).
    inversion Hin.
  - apply lookup_app_l. exact Ha0.
  - intros q Hq. apply lookup_app_l. exact Hq.
Qed.

Lemma same_platform_overwrites_entry_witness :
  let env := demo_env SpawnOk in
  let w := run env [WsConnection; configure_for 0 "twitch"; WsConnection] initial in
  JsMap.get "twitch" (streams w) = Some 0 /\
  JsMap.get "twitch" (streams (handle env (configure_for 1 "twitch") w)) = Some 1 /\
  JsMap.keys (streams (handle env (configure_for 1 "twitch") w)) = ["twitch"].
Proof.
  intros env w.
  destruct (same_platform_overwrites_entry env w) as [_ H].
  - exists [WsConnection; configure_for 0 "twitch"; WsConnection]. reflexivity.
  - destruct (H 1 {| streamOutput := None; session_platform := "youtube";
                     connected := true |} (Some "twitch")
                (parse_env "# twitch
STREAM_KEY = tw-key
") "tw-key" 0) as (_ & H1 & H2 & _).
    + reflexivity.
    + reflexivity.
    + reflexivity.
    + exists "# twitch
STREAM_KEY = tw-key
". repeat split; vm_compute; reflexivity.
    + simpl. discriminate.
    + vm_compute. reflexivity.
    + split; [vm_compute; reflexivity|]. split; [exact H1 | exact H2].
Defined.

(** ** stop and the teardown of a session *)

Section Teardown.

Variable env : environment.

(** [stop()] on a StreamOutput that holds a child. *)
Lemma stop_running a so p ch w :
  heap w !! a = Some so -> ffmpeg so = Some p -> procs w !! p = Some ch ->
  stop a w
  = {| heap := <[a := with_child None false so]> (heap w);
       procs := <[p := signal "SIGTERM" (end_stdin ch)]> (procs w);
       streams := streams w; sessions := sessions w;
       spawn_calls := spawn_calls w;
       trace := trace w ++ [ConsoleLog (tag so ++ " Stopping ffmpeg");
                            StdinEnd p; Kill p "SIGTERM"; Cleared a] |}.
Proof.
  intros Ha Hp Hch.
  assert (Hlt : p < length (procs w)) by (eapply lookup_lt_Some; exact Hch).
  unfold stop. rewrite Ha, Hp. unfold upd_child, clear. simpl. rewrite Hch. simpl.
  rewrite list_lookup_insert_eq by exact Hlt. simpl. rewrite Ha.
  unfold emit, set_heap. simpl.
  rewrite list_insert_insert_eq, <- !app_assoc. reflexivity.
Qed.

(** [stop()] on a StreamOutput without a child. *)
Lemma stop_idle a w :
  (forall so, heap w !! a = Some so -> ffmpeg so = None) -> stop a w = w.
Proof.
  intros H. unfold stop. destruct (heap w !! a) as [so|]; [|reflexivity].
  rewrite (H so eq_refl). reflexivity.
Qed.

(** The 'close' handler of a session that holds a StreamOutput. *)
Lemma handle_close_frame c s a w :
  sessions w !! c = Some s -> connected s = true -> streamOutput s = Some a ->
  let s1 := {| streamOutput := streamOutput s;
               session_platform := session_platform s; connected := false |} in
  let w2 := stop a (emit (ConsoleLog "Browser disconnected")
                         (set_sessions (<[c := s1]> (sessions w)) w)) in
  handle env (WsClose c) w
  = set_streams (JsMap.delete (session_platform s) (streams w2)) w2.
Proof.
  intros Hs Hc Ha. simpl. unfold on_close. rewrite Hs, Hc, Ha. reflexivity.
Qed.

End Teardown.

(** Membership in an explicit list of actions, refuted entry by entry. *)
Ltac refute_in H :=
  repeat (apply elem_of_cons in H as [H|H];
          [try discriminate H; try (injection H; intros; congruence)|]);
  try (inversion H; fail).

(** C10.  When a session that holds a StreamOutput disconnects, the
    'close' handler deletes the registry entry of the session's platform
    whatever StreamOutput that entry holds.  When the entry holds the
    StreamOutput of another session, which owns a child, the platform is
    gone from the registry and from the health report, while that other
    StreamOutput and its child are exactly as they were (still holding the
    child, stdin open, no signal sent): the handler has not ended the
    stdin of that child, has not signalled it, and has not cleared that
    StreamOutput. *)
Theorem close_deletes_entry_of_other_session
    (env : environment) (w : world) (c1 : conn) (s1 : session)
    (a1 a2 : addr) (so2 : StreamOutput) (p2 : pid) (ch2 : child) :
  reachable env w ->
  sessions w !! c1 = Some s1 -> connected s1 = true ->
  streamOutput s1 = Some a1 ->
  JsMap.get (session_platform s1) (streams w) = Some a2 -> a2 <> a1 ->
  heap w !! a2 = Some so2 -> ffmpeg so2 = Some p2 -> procs w !! p2 = Some ch2 ->
  let w' := handle env (WsClose c1) w in
  JsMap.get (session_platform s1) (streams w') = None /\
  (session_platform s1 ∉ (health w').1) /\
  heap w' !! a2 = Some so2 /\
  procs w' !! p2 = Some ch2 /\
  exists done : list action,
    trace w' = (trace w ++ done)%list /\
    (StdinEnd p2 ∉ done) /\
    (forall sig : string, Kill p2 sig ∉ done) /\
    (Cleared a2 ∉ done).
Proof.
  intros Hreach Hs Hc Ha Hget Hne Hso2 Hp2 Hch2 w'.
  pose proof (reachable_consistent env w Hreach) as Hcons.
  assert (Hw' : w' = handle env (WsClose c1) w) by reflexivity.
  rewrite (handle_close_frame env c1 s1 a1 w Hs Hc Ha) in Hw'. simpl in Hw'.
  set (w1 := emit (ConsoleLog "Browser disconnected") _) in Hw'.
  destruct (child_owned w Hcons a2 so2 p2 Hso2 Hp2) as (ch2' & Hch2' & Hown2).
  assert (ch2' = ch2) as -> by congruence.
  assert (Hstop :
    heap (stop a1 w1) !! a2 = Some so2 /\ procs (stop a1 w1) !! p2 = Some ch2 /\
    streams (stop a1 w1) = streams w /\
    exists done : list action,
      trace (stop a1 w1) = (trace w ++ done)%list /\
      (StdinEnd p2 ∉ done) /\ (forall sig, Kill p2 sig ∉ done) /\ (Cleared a2 ∉ done)).
  { destruct (heap w !! a1) as [so1|] eqn:Hso1.
    - destruct (ffmpeg so1) as [p1|] eqn:Hp1.
      + destruct (child_owned w Hcons a1 so1 p1 Hso1 Hp1) as (ch1 & Hch1 & Hown1).
        assert (Hpne : p1 <> p2) by congruence.
        rewrite (stop_running a1 so1 p1 ch1 w1 Hso1 Hp1 Hch1). simpl.
        rewrite list_lookup_insert_ne by congruence.
        rewrite list_lookup_insert_ne by exact Hpne.
        repeat split; try assumption.
        eexists [_; _; _; _; _]. rewrite <- app_assoc. split; [reflexivity|].
        split; [|split]; [intros Hin | intros sig Hin | intros Hin]; refute_in Hin.
      + rewrite stop_idle by (simpl; intros so Hso; congruence).
        repeat split; try assumption.
        eexists [_]. split; [reflexivity|].
        split; [|split]; [intros Hin | intros sig Hin | intros Hin]; refute_in Hin.
    - rewrite stop_idle by (simpl; intros so Hso; congruence).
      repeat split; try assumption.
      eexists [_]. split; [reflexivity|].
      split; [|split]; [intros Hin | intros sig Hin | intros Hin]; refute_in Hin. }
  destruct Hstop as (H1 & H2 & H3 & H4).
  rewrite Hw'. simpl. repeat split; try assumption.
  - apply JsMapFacts.get_delete_eq.
  - apply JsMapFacts.get_None_not_in_keys, JsMapFacts.get_delete_eq.
Qed.

Lemma close_deletes_entry_of_other_session_witness :
  let w' := handle (demo_env SpawnOk) (WsClose 0) demo_two_sessions in
  JsMap.get "twitch" (streams demo_two_sessions) = Some 1 /\
  JsMap.get "twitch" (streams w') = None /\
  heap w' !! 1
  = Some {| platform := "twitch"; streamKey := "tw-key";
            streamUrl := "rtmp://a.rtmp.youtube.com/live2";
            ffmpeg := Some 1; isStreaming := true |} /\
  procs w' !! 1
  = Some (new_child 1 "rtmp://a.rtmp.youtube.com/live2/tw-key" SpawnOk).
Proof.
  intros w'.
  destruct (close_deletes_entry_of_other_session (demo_env SpawnOk)
              demo_two_sessions 0
              {| streamOutput := Some 0; session_platform := "twitch";
                 connected := true |}
              0 1
              {| platform := "twitch"; streamKey := "tw-key";
                 streamUrl := "rtmp://a.rtmp.youtube.com/live2";
                 ffmpeg := Some 1; isStreaming := true |}
              1 (new_child 1 "rtmp://a.rtmp.youtube.com/live2/tw-key" SpawnOk))
    as (H1 & _ & H2 & H3 & _).
  - exists [WsConnection; configure_for 0 "twitch";
            WsConnection; configure_for 1 "twitch"]. reflexivity.
  - vm_compute; reflexivity.
  - reflexivity.
  - reflexivity.
  - vm_compute; reflexivity.
  - lia.
  - vm_compute; reflexivity.
  - reflexivity.
  - vm_compute; reflexivity.
  - split; [vm_compute; reflexivity|].
    split; [exact H1|]. split; [exact H2 | exact H3].
Defined.

(** ** Transport errors *)

Section TransportError.

Variable env : environment.

(** What [stop] does to the state does not depend on the trace. *)
Lemma stop_untraced a w w' :
  untraced w = untraced w' -> untraced (stop a w) = untraced (stop a w').
Proof.
  destruct w as [h ps m ss n t], w' as [h' ps' m' ss' n' t'].
  unfold untraced. simpl. intros [= <- <- <- <- <-].
  unfold stop. simpl. destruct (h !! a) as [so|] eqn:Ha; [|reflexivity].
  destruct (ffmpeg so) as [p|]; [|reflexivity].
  unfold upd_child, clear. simpl.
  destruct (ps !! p) as [ch|] eqn:Hp; simpl.
  - rewrite list_lookup_insert_eq by (eapply lookup_lt_Some; exact Hp).
    simpl. rewrite Ha. reflexivity.
  - rewrite Hp. simpl. rewrite Ha. reflexivity.
Qed.

Lemma on_close_untraced c w w' :
  untraced w = untraced w' -> untraced (on_close c w) = untraced (on_close c w').
Proof.
  intros H. unfold on_close.
  assert (Hss : sessions w = sessions w') by (unfold untraced in H; congruence).
  rewrite <- Hss. destruct (sessions w !! c) as [s|]; [|exact H].
  set (s1 := {| connected := false |}).
  assert (H1 : untraced (emit (ConsoleLog "Browser disconnected")
                           (set_sessions (<[c:=s1]> (sessions w)) w))
               = untraced (emit (ConsoleLog "Browser disconnected")
                             (set_sessions (<[c:=s1]> (sessions w)) w'))).
  { unfold untraced in *. simpl. congruence. }
  destruct (streamOutput s) as [a|]; [|exact H1].
  pose proof (stop_untraced a _ _ H1) as H2.
  unfold untraced in *. simpl. congruence.
Qed.

Lemma handle_close_untraced c w w' :
  untraced w = untraced w' ->
  untraced (handle env (WsClose c) w) = untraced (handle env (WsClose c) w').
Proof.
  intros H. simpl.
  assert (Hss : sessions w = sessions w') by (unfold untraced in H; congruence).
  rewrite <- Hss. destruct (sessions w !! c) as [s|]; [|exact H].
  destruct (connected s); [|exact H].
  apply on_close_untraced. exact H.
Qed.

End TransportError.

(** C3, as the server has it.  The 'error' handler of a connection prints
    the error and does nothing else: no StreamOutput is stopped, no child
    is signalled and the registry keeps its entries.  The teardown is that
    of the 'close' handler: when 'close' follows the error, it leaves the
    state it would have left without the error. *)
Theorem ws_error_only_logs (env : environment) (c : conn) (w : world) :
  untraced (handle env (WsError c) w) = untraced w /\
  (forall s : session,
      sessions w !! c = Some s -> connected s = true ->
      trace (handle env (WsError c) w)
      = (trace w ++ [ConsoleError "WebSocket error:"])%list) /\
  untraced (handle env (WsClose c) (handle env (WsError c) w))
  = untraced (handle env (WsClose c) w).
Proof.
  assert (H1 : untraced (handle env (WsError c) w) = untraced w).
  { simpl. unfold on_error. destruct (sessions w !! c) as [s|]; [|reflexivity].
    destruct (connected s); reflexivity. }
  split; [exact H1|]. split.
  - intros s Hs Hc. simpl. unfold on_error. rewrite Hs, Hc. reflexivity.
  - apply handle_close_untraced. exact H1.
Qed.

Lemma ws_error_only_logs_witness :
  trace (handle (demo_env SpawnOk) (WsError 0) (demo_streaming SpawnOk))
  = (trace (demo_streaming SpawnOk) ++ [ConsoleError "WebSocket error:"])%list.
Proof.
  apply (proj1 (proj2 (ws_error_only_logs (demo_env SpawnOk) 0
                         (demo_streaming SpawnOk)))
               {| streamOutput := Some 0; session_platform := "twitch";
                  connected := true |}).
  - vm_compute; reflexivity.
  - reflexivity.
Defined.

(** C3 fails as stated: on a streaming session the 'error' handler leaves
    the registry entry, the StreamOutput and the child as they are, where
    the 'close' handler stops the child and deletes the entry. *)
Lemma ws_error_does_no_teardown :
  let w := demo_streaming SpawnOk in
  let after_error := handle (demo_env SpawnOk) (WsError 0) w in
  let after_close := handle (demo_env SpawnOk) (WsClose 0) w in
  (JsMap.get "twitch" (streams after_close) = None /\
   ffmpeg <$> heap after_close !! 0 = Some None /\
   signals <$> procs after_close !! 0 = Some ["SIGTERM"]) /\
  (JsMap.get "twitch" (streams after_error) = Some 0 /\
   ffmpeg <$> heap after_error !! 0 = Some (Some 0) /\
   isStreaming <$> heap after_error !! 0 = Some true /\
   signals <$> procs after_error !! 0 = Some [] /\
   stdin_ended <$> procs after_error !! 0 = Some false) /\
  untraced after_error <> untraced after_close.
Proof.
  vm_compute. repeat split; discriminate.
Qed.

(** ** The listeners on the child *)

(** The 'close' listener on a StreamOutput that exists. *)
Lemma on_child_close_clears a so code w :
  heap w !! a = Some so ->
  on_child_close a code w
  = {| heap := <[a := with_child None false so]> (heap w);
       procs := procs w; streams := streams w; sessions := sessions w;
       spawn_calls := spawn_calls w;
       trace := trace w ++ [ConsoleLog (tag so ++ " FFmpeg exited with code " ++ code);
                            Cleared a] |}.
Proof.
  intros Ha. unfold on_child_close, clear. rewrite Ha. simpl. rewrite Ha.
  unfold emit, set_heap. simpl. rewrite <- app_assoc. reflexivity.
Qed.

(** The 'error' listener on a StreamOutput that exists. *)
Lemma on_child_error_clears a so w :
  heap w !! a = Some so ->
  on_child_error a w
  = {| heap := <[a := with_child None false so]> (heap w);
       procs := procs w; streams := streams w; sessions := sessions w;
       spawn_calls := spawn_calls w;
       trace := trace w ++ [ConsoleError (tag so ++ " FFmpeg error:"); Cleared a] |}.
Proof.
  intros Ha. unfold on_child_error, clear. rewrite Ha. simpl. rewrite Ha.
  unfold emit, set_heap. simpl. rewrite <- app_assoc. reflexivity.
Qed.

(** C2, as the server has it.  When the 'close' or the 'error' event of a
    child is delivered, the listener sets [isStreaming] to false and the
    child reference to null on the StreamOutput that spawned it, whatever
    their values: the clearing has no guard.  [stop()] clears at once, and
    the 'close' event that follows clears a second time, which leaves the
    fields as [stop()] left them. *)
Theorem child_exit_clears_without_guard
    (env : environment) (w : world) (p : pid) (ch : child)
    (so : StreamOutput) (code : string) :
  procs w !! p = Some ch -> close_emitted ch = false ->
  heap w !! owner ch = Some so ->
  let a := owner ch in
  let after_close := handle env (ChildClose p code) w in
  let after_error := handle env (ChildError p) w in
  heap after_close !! a = Some (with_child None false so) /\
  clearings a (trace after_close) = S (clearings a (trace w)) /\
  heap after_error !! a = Some (with_child None false so) /\
  clearings a (trace after_error) = S (clearings a (trace w)) /\
  (ffmpeg so = Some p ->
   let stopped := stop a w in
   let closed := handle env (ChildClose p code) stopped in
   heap stopped !! a = Some (with_child None false so) /\
   clearings a (trace stopped) = S (clearings a (trace w)) /\
   heap closed = heap stopped /\
   clearings a (trace closed) = S (S (clearings a (trace w)))).
Proof.
  intros Hch Hclosed Hso a after_close after_error.
  assert (Ha : a < length (heap w)) by (eapply lookup_lt_Some; exact Hso).
  assert (Hp : p < length (procs w)) by (eapply lookup_lt_Some; exact Hch).
  split; [|split; [|split; [|split]]].
  - unfold after_close. simpl. rewrite Hch, Hclosed.
    rewrite (on_child_close_clears (owner ch) so code) by (unfold upd_child; rewrite Hch; exact Hso).
    simpl. apply list_lookup_insert_eq. unfold upd_child. rewrite Hch. exact Ha.
  - unfold after_close. simpl. rewrite Hch, Hclosed.
    rewrite (on_child_close_clears (owner ch) so code) by (unfold upd_child; rewrite Hch; exact Hso).
    simpl. unfold upd_child. rewrite Hch. simpl.
    rewrite clearings_app. simpl. fold a. rewrite Nat.eqb_refl. lia.
  - unfold after_error. simpl. rewrite Hch.
    rewrite (on_child_error_clears (owner ch) so w Hso).
    simpl. apply list_lookup_insert_eq. exact Ha.
  - unfold after_error. simpl. rewrite Hch.
    rewrite (on_child_error_clears (owner ch) so w Hso).
    simpl. rewrite clearings_app. simpl. fold a. rewrite Nat.eqb_refl. lia.
  - intros Hrun stopped closed.
    assert (Hstopped : stopped = stop a w) by reflexivity.
    rewrite (stop_running a so p ch w Hso Hrun Hch) in Hstopped.
    assert (Hcl : closed = handle env (ChildClose p code) stopped) by reflexivity.
    assert (Hch' : procs stopped !! p = Some (signal "SIGTERM" (end_stdin ch))).
    { rewrite Hstopped. simpl. apply list_lookup_insert_eq. exact Hp. }
    assert (Hso' : heap stopped !! a = Some (with_child None false so)).
    { rewrite Hstopped. simpl. apply list_lookup_insert_eq. exact Ha. }
    simpl in Hcl. rewrite Hch' in Hcl. simpl in Hcl. rewrite Hclosed in Hcl.
    rewrite (on_child_close_clears (owner ch) (with_child None false so) code) in Hcl
      by (unfold upd_child; rewrite Hch'; exact Hso').
    unfold upd_child in Hcl. rewrite Hch' in Hcl. simpl in Hcl.
    split; [exact Hso'|]. split; [|split].
    + rewrite Hstopped. simpl. rewrite clearings_app. simpl.
      rewrite Nat.eqb_refl. lia.
    + rewrite Hcl, Hstopped. simpl. fold a. apply list_insert_insert_eq.
    + rewrite Hcl, Hstopped. simpl. rewrite !clearings_app. simpl. fold a.
      rewrite Nat.eqb_refl. lia.
Qed.

Lemma child_exit_clears_without_guard_witness :
  let env := demo_env SpawnOk in
  let w := demo_streaming SpawnOk in
  clearings 0 (trace w) = 0 /\
  clearings 0 (trace (handle env (ChildClose 0 "255") (stop 0 w))) = 2.
Proof.
  intros env w.
  destruct (child_exit_clears_without_guard env w 0
              (new_child 0 "rtmp://a.rtmp.youtube.com/live2/tw-key" SpawnOk)
              {| platform := "twitch"; streamKey := "tw-key";
                 streamUrl := "rtmp://a.rtmp.youtube.com/live2";
                 ffmpeg := Some 0; isStreaming := true |} "255")
    as (_ & _ & _ & _ & H).
  - vm_compute; reflexivity.
  - reflexivity.
  - vm_compute; reflexivity.
  - destruct (H eq_refl) as (_ & _ & _ & H2).
    split; [vm_compute; reflexivity | exact H2].
Defined.

(** C2 fails as stated: a browser streams to twitch and disconnects, so
    that [stop()] clears the StreamOutput; the 'close' event of the one
    child it ever had then clears the same StreamOutput again. *)
Lemma stop_then_close_clears_twice :
  let w := run (demo_env SpawnOk)
             [WsConnection; configure_for 0 "twitch"; WsClose 0;
              ChildClose 0 "255"] initial in
  length (procs w) = 1 /\
  trace w
  = [ConsoleLog "Browser connected";
     ConsoleLog "Configuring stream for platform: twitch";
     ConsoleLog "[twitch] Starting ffmpeg -> rtmp://a.rtmp.youtube.com/live2/***";
     SpawnCall "rtmp://a.rtmp.youtube.com/live2/tw-key";
     WsSend 0 (StatusStreaming "twitch");
     ConsoleLog "Browser disconnected";
     ConsoleLog "[twitch] Stopping ffmpeg";
     StdinEnd 0; Kill 0 "SIGTERM"; Cleared 0;
     ConsoleLog "[twitch] FFmpeg exited with code 255";
     Cleared 0] /\
  clearings 0 (trace w) = 2 /\
  ~ clearings 0 (trace w) <= 1.
Proof.
  vm_compute. repeat split. lia.
Qed.

(** ** A child that cannot be spawned *)

(** C1, as the server has it.  A session awaiting its configuration
    receives one whose credentials resolve; [w0] is the world in which the
    handler calls [start()] on the StreamOutput it has just constructed.
    - When the binary is missing, [spawn] returns a ChildProcess: [start()]
      returns normally with the child reference set and [isStreaming] true,
      the handler registers the StreamOutput and acknowledges with the
      status frame.  The failure arrives as the child's 'error' event,
      whose listener prints it and clears the StreamOutput; nothing is sent
      to the client, and the registry and the session stay as they are.
    - When [spawn] throws, the exception leaves [start()] with the
      StreamOutput unchanged; the handler catches it and prints it, sends
      no frame and registers nothing. *)
Theorem spawn_failure_is_not_reported_to_client
    (env : environment) (c : conn) (s : session) (field : option string)
    (streamConfig : config) (key : string) (w : world) :
  sessions w !! c = Some s -> connected s = true -> streamOutput s = None ->
  resolves env (platform_of field) streamConfig key ->
  let p := platform_of field in
  let a := length (heap w) in
  let q := length (procs w) in
  let so := fresh p key streamConfig in
  let url := streamUrl so ++ "/" ++ key in
  let w0 :=
    {| heap := heap w ++ [so]; procs := procs w; streams := streams w;
       sessions := <[c := holding s p a]> (sessions w);
       spawn_calls := spawn_calls w;
       trace := trace w ++ [ConsoleLog ("Configuring stream for platform: " ++ p)] |} in
  let w1 := handle env (WsMessage c (Text (ConfigObject field))) w in
  (spawn_outcome env (spawn_calls w) = SpawnFailsAsync ->
   (start env a w0).1 = Returns () /\
   heap (start env a w0).2 !! a = Some (with_child (Some q) true so) /\
   heap w1 !! a = Some (with_child (Some q) true so) /\
   procs w1 !! q = Some (new_child a url SpawnFailsAsync) /\
   JsMap.get p (streams w1) = Some a /\
   trace w1
   = (trace w
      ++ [ConsoleLog ("Configuring stream for platform: " ++ p);
          ConsoleLog (tag so ++ " Starting ffmpeg -> " ++ streamUrl so ++ "/***");
          SpawnCall url;
          WsSend c (StatusStreaming p)])%list /\
   let w2 := handle env (ChildError q) w1 in
   heap w2 !! a = Some (with_child None false so) /\
   trace w2
   = (trace w1 ++ [ConsoleError (tag so ++ " FFmpeg error:"); Cleared a])%list /\
   streams w2 = streams w1 /\ sessions w2 = sessions w1) /\
  (spawn_outcome env (spawn_calls w) = SpawnThrows ->
   (start env a w0).1 = Throws /\
   heap (start env a w0).2 = heap w0 /\
   heap w1 !! a = Some so /\
   procs w1 = procs w /\ streams w1 = streams w /\
   trace w1
   = (trace w
      ++ [ConsoleLog ("Configuring stream for platform: " ++ p);
          ConsoleLog (tag so ++ " Starting ffmpeg -> " ++ streamUrl so ++ "/***");
          SpawnCall url;
          ConsoleError "Invalid config message:"])%list).
Proof.
  intros Hs Hc Ha Hres p a q so url w0 w1.
  assert (Hw1 : w1 = configure env c s (ConfigObject field) w)
    by (apply handle_config_frame; assumption).
  assert (Hso : heap w0 !! a = Some so)
    by (simpl; apply list_lookup_middle; reflexivity).
  split.
  - intros Hspawn.
    assert (Hr : spawn_outcome env (spawn_calls w) <> SpawnThrows)
      by (rewrite Hspawn; discriminate).
    rewrite (configure_streaming env c s field streamConfig key w Hres Hr) in Hw1.
    fold p a so q in Hw1. rewrite Hspawn in Hw1.
    rewrite (start_spawns env a so w0 Hso eq_refl Hr). simpl.
    assert (Hl : heap w1 !! a = Some (with_child (Some q) true so)).
    { rewrite Hw1. simpl. apply list_lookup_middle. reflexivity. }
    assert (Hq : procs w1 !! q = Some (new_child a url SpawnFailsAsync)).
    { rewrite Hw1. simpl. apply list_lookup_middle. reflexivity. }
    split; [reflexivity|]. split.
    { apply list_lookup_insert_eq. rewrite length_app. simpl. unfold a. lia. }
    split; [exact Hl|]. split; [exact Hq|]. split.
    { rewrite Hw1. simpl. apply JsMapFacts.get_set_eq. }
    split; [rewrite Hw1; reflexivity|].
    simpl. rewrite Hq. simpl.
    rewrite (on_child_error_clears a (with_child (Some q) true so) w1 Hl). simpl.
    repeat split.
    apply list_lookup_insert_eq. eapply lookup_lt_Some. exact Hl.
  - intros Hspawn.
    rewrite (configure_spawn_throws env c s field streamConfig key w Hres Hspawn)
      in Hw1.
    fold p a so in Hw1.
    rewrite (start_throws env a so w0 Hso eq_refl Hspawn). simpl.
    rewrite Hw1. simpl. repeat split.
    apply list_lookup_middle. reflexivity.
Qed.

Lemma spawn_failure_is_not_reported_to_client_witness :
  let env := demo_env SpawnFailsAsync in
  let w := run env [WsConnection] initial in
  let w1 := handle env (configure_for 0 "kick") w in
  heap w1 !! 0
  = Some {| platform := "kick"; streamKey := "kick-key";
            streamUrl := "rtmps://ingest.kick.example/app";
            ffmpeg := Some 0; isStreaming := true |} /\
  JsMap.get "kick" (streams w1) = Some 0.
Proof.
  intros env w w1.
  destruct (spawn_failure_is_not_reported_to_client env 0
              {| streamOutput := None; session_platform := "youtube";
                 connected := true |} (Some "kick")
              (parse_env "STREAM_KEY=kick-key
STREAM_URL=rtmps://ingest.kick.example/app") "kick-key" w) as [H _].
  - reflexivity.
  - reflexivity.
  - reflexivity.
  - exists "STREAM_KEY=kick-key
STREAM_URL=rtmps://ingest.kick.example/app".
    repeat split; vm_compute; reflexivity.
  - destruct (H eq_refl) as (_ & _ & H1 & _ & H2 & _).
    split; [exact H1 | exact H2].
Defined.

(** C1 fails as stated: with the ffmpeg binary missing, [start()] returns
    normally and has set the child reference and [isStreaming]; the session
    registers the StreamOutput and acknowledges with the status frame, and
    sends no error frame, neither then nor when the 'error' event of the
    child has been handled. *)
Lemma missing_binary_is_acknowledged :
  let env := demo_env SpawnFailsAsync in
  let w0 :=
    {| heap := [{| platform := "twitch"; streamKey := "tw-key";
                   streamUrl := "rtmp://a.rtmp.youtube.com/live2";
                   ffmpeg := None; isStreaming := false |}];
       procs := []; streams := [];
       sessions := [{| streamOutput := Some 0; session_platform := "twitch";
                       connected := true |}];
       spawn_calls := 0;
       trace := [ConsoleLog "Browser connected";
                 ConsoleLog "Configuring stream for platform: twitch"] |} in
  let w1 := run env [WsConnection; configure_for 0 "twitch"] initial in
  let w2 := handle env (ChildError 0) w1 in
  (start env 0 w0).1 = Returns () /\
  heap (start env 0 w0).2
  = [{| platform := "twitch"; streamKey := "tw-key";
        streamUrl := "rtmp://a.rtmp.youtube.com/live2";
        ffmpeg := Some 0; isStreaming := true |}] /\
  heap w1 = heap (start env 0 w0).2 /\
  streams w1 = [("twitch", 0)] /\
  trace w1
  = [ConsoleLog "Browser connected";
     ConsoleLog "Configuring stream for platform: twitch";
     ConsoleLog "[twitch] Starting ffmpeg -> rtmp://a.rtmp.youtube.com/live2/***";
     SpawnCall "rtmp://a.rtmp.youtube.com/live2/tw-key";
     WsSend 0 (StatusStreaming "twitch")] /\
  trace w2
  = (trace w1 ++ [ConsoleError "[twitch] FFmpeg error:"; Cleared 0])%list /\
  streams w2 = [("twitch", 0)].
Proof.
  vm_compute. repeat split.
Qed.
(** ** The shapes of a step *)

Section Shapes.

Variable env : environment.

(** What a configuration message does to an awaiting session: nothing but
    printing, or a new platform for the session, or one of the two ends of
    [start]. *)
Lemma configure_cases c s payload w :
  (exists xs, configure env c s payload w = emit_all xs w) \/
  (exists p xs,
      configure env c s payload w
      = {| heap := heap w; procs := procs w; streams := streams w;
           sessions := <[c := awaiting s p]> (sessions w);
           spawn_calls := spawn_calls w; trace := trace w ++ xs |}) \/
  (exists field streamConfig key,
      payload = ConfigObject field /\
      resolves env (platform_of field) streamConfig key /\
      spawn_outcome env (spawn_calls w) <> SpawnThrows) \/
  (exists field streamConfig key,
      payload = ConfigObject field /\
      resolves env (platform_of field) streamConfig key /\
      spawn_outcome env (spawn_calls w) = SpawnThrows).
Proof.
  destruct payload as [|field].
  - left. exists [ConsoleError "Invalid config message:"]. reflexivity.
  - destruct (fs env (envPath env (platform_of field))) as [[content|]|] eqn:Hfs.
    + destruct (parse_env content !! "STREAM_KEY") as [key|] eqn:Hkey.
      * destruct (JsString.truthy key) eqn:Htruthy.
        -- assert (Hres : resolves env (platform_of field) (parse_env content) key)
             by (exists content; auto).
           destruct (spawn_throws_or_not (spawn_outcome env (spawn_calls w)))
             as [Ht|Hr].
           ++ right. right. right. exists field, (parse_env content), key. auto.
           ++ right. right. left. exists field, (parse_env content), key. auto.
        -- right. left. eexists. eexists.
           apply (configure_unresolved env c s field w).
           right. exists content. split; [exact Hfs|].
           unfold prop_or. rewrite Hkey, Htruthy. reflexivity.
      * right. left. eexists. eexists.
        apply (configure_unresolved env c s field w).
        right. exists content. split; [exact Hfs|].
        unfold prop_or. rewrite Hkey. reflexivity.
    + right. left. exists (platform_of field).
      exists [ConsoleLog ("Configuring stream for platform: " ++ platform_of field);
              ConsoleError "Invalid config message:"].
      unfold configure, loadStreamConfig. rewrite Hfs. simpl.
      unfold invalid_config, emit, awaiting. simpl.
      rewrite <- app_assoc. reflexivity.
    + right. left. eexists. eexists.
      apply (configure_unresolved env c s field w). left. exact Hfs.
Qed.

End Shapes.
(** ** [tidy] is an invariant of the event loop *)

Section Tidy.

Variable env : environment.

Lemma tidy_initial : tidy initial.
Proof.
  split; simpl; intros;
    repeat match goal with
           | H : [] !! _ = Some _ |- _ => rewrite lookup_nil in H; discriminate H
           | H : None = Some _ |- _ => discriminate H
           end.
Qed.

(** Only the heap, the processes, the registry and the sessions matter. *)
Lemma tidy_same w w' :
  heap w' = heap w -> procs w' = procs w -> streams w' = streams w ->
  sessions w' = sessions w -> tidy w -> tidy w'.
Proof.
  intros Hh Hp Hm Hs [T1 T2 T3 T4 T5 T6 T7 T8 T9].
  split; rewrite ?Hh, ?Hp, ?Hm, ?Hs; assumption.
Qed.

Lemma get_delete_Some k k' a m :
  JsMap.get k' (JsMap.delete k m) = Some a -> k <> k' /\ JsMap.get k' m = Some a.
Proof.
  intros H. destruct (String.eqb k k') eqn:E.
  - apply String.eqb_eq in E. subst k'.
    rewrite JsMapFacts.get_delete_eq in H. discriminate.
  - apply String.eqb_neq in E. split; [exact E|].
    rewrite JsMapFacts.get_delete_ne in H by exact E. exact H.
Qed.

Lemma get_set_Some k k' a a' m :
  JsMap.get k' (JsMap.set k a m) = Some a' ->
  (k = k' /\ a' = a) \/ (k <> k' /\ JsMap.get k' m = Some a').
Proof.
  intros H. destruct (String.eqb k k') eqn:E.
  - apply String.eqb_eq in E. subst k'.
    rewrite JsMapFacts.get_set_eq in H. left. split; congruence.
  - apply String.eqb_neq in E. right. split; [exact E|].
    rewrite JsMapFacts.get_set_ne in H by exact E. exact H.
Qed.

(** A StreamOutput is cleared, and the children it owns may change. *)
Lemma tidy_retire a so w w' :
  consistent w -> tidy w ->
  heap w !! a = Some so ->
  heap w' = <[a := with_child None false so]> (heap w) ->
  streams w' = streams w -> sessions w' = sessions w ->
  (forall p x', procs w' !! p = Some x' ->
     exists x, procs w !! p = Some x /\ owner x' = owner x /\
               rtmpUrl x' = rtmpUrl x /\
               (x' = x \/
                (owner x = a /\
                 (signals x' = [] \/
                  (signals x' = ["SIGTERM"] /\ stdin_ended x' = true))))) ->
  tidy w'.
Proof.
  intros Hcons [T1 T2 T3 T4 T5 T6 T7 T8 T9] Ha Hh Hm Hs Hp.
  assert (Hlt : a < length (heap w)) by (eapply lookup_lt_Some; exact Ha).
  assert (Hkeep : forall a' x, heap w !! a' = Some x ->
            exists x', heap w' !! a' = Some x' /\ platform x' = platform x /\
                       streamUrl x' = streamUrl x /\ streamKey x' = streamKey x).
  { intros a' x Hx. rewrite Hh. destruct (decide (a = a')) as [<-|Hne].
    - rewrite list_lookup_insert_eq by exact Hlt.
      assert (x = so) as -> by congruence. eexists. split; [reflexivity|]. auto.
    - rewrite list_lookup_insert_ne by exact Hne. exists x. auto. }
  assert (Hback : forall a' x', heap w' !! a' = Some x' ->
            (a' = a /\ x' = with_child None false so) \/
            (a' <> a /\ heap w !! a' = Some x')).
  { intros a' x' Hx'. rewrite Hh in Hx'.
    apply list_lookup_insert_Some in Hx' as [(-> & <- & _)|(Hne & Hx')]; auto. }
  split; rewrite ?Hm, ?Hs.
  - intros a' x' Hx'. destruct (Hback a' x' Hx') as [[-> ->]|[_ Hx]].
    + simpl. split; [discriminate | congruence].
    + exact (T1 a' x' Hx).
  - intros c s a' Hc Hso. destruct (T2 c s a' Hc Hso) as (x & Hx & Hpl).
    destruct (Hkeep a' x Hx) as (x' & Hx' & Hpl' & _). exists x'.
    split; [exact Hx' | congruence].
  - exact T3.
  - intros a' x' Hx'. destruct (Hback a' x' Hx') as [[-> ->]|[_ Hx]].
    + exact (T4 a so Ha).
    + exact (T4 a' x' Hx).
  - exact T5.
  - intros p x' Hx'. destruct (Hp p x' Hx') as (x & Hx & Hown & Hurl & _).
    destruct (T6 p x Hx) as (y & Hy & Hyurl).
    destruct (Hkeep _ y Hy) as (y' & Hy' & _ & Hu & Hk).
    exists y'. rewrite Hown, Hurl, Hu, Hk. auto.
  - intros p q x' y' Hx' Hy' Hown.
    destruct (Hp p x' Hx') as (x & Hx & Hownx & _).
    destruct (Hp q y' Hy') as (y & Hy & Howny & _).
    apply (T7 p q x y Hx Hy). congruence.
  - intros a' x' p ch' Hx' Hf Hch'.
    destruct (Hback a' x' Hx') as [[-> ->]|[Hne Hx]]; [discriminate|].
    destruct (Hp p ch' Hch') as (ch & Hch & _ & _ & Hsame).
    destruct (child_owned w Hcons a' x' p Hx Hf) as (ch0 & Hch0 & Hown0).
    assert (ch0 = ch) as -> by congruence.
    destruct Hsame as [->|[Hown _]]; [|congruence].
    exact (T8 a' x' p ch Hx Hf Hch).
  - intros p x' Hx'. destruct (Hp p x' Hx') as (x & Hx & _ & _ & [->|[_ Hsig]]).
    + exact (T9 p x Hx).
    + exact Hsig.
Qed.

(** The children change in what [tidy] does not look at. *)
Lemma tidy_children w w' :
  tidy w ->
  heap w' = heap w -> streams w' = streams w -> sessions w' = sessions w ->
  (forall p x', procs w' !! p = Some x' ->
     exists x, procs w !! p = Some x /\ owner x' = owner x /\
               rtmpUrl x' = rtmpUrl x /\ close_emitted x' = close_emitted x /\
               stdin_ended x' = stdin_ended x /\ signals x' = signals x) ->
  tidy w'.
Proof.
  intros [T1 T2 T3 T4 T5 T6 T7 T8 T9] Hh Hm Hs Hp.
  split; rewrite ?Hh, ?Hm, ?Hs; try assumption.
  - intros p x' Hx'. destruct (Hp p x' Hx') as (x & Hx & Hown & Hurl & _).
    rewrite Hown, Hurl. exact (T6 p x Hx).
  - intros p q x' y' Hx' Hy' Hown.
    destruct (Hp p x' Hx') as (x & Hx & Hownx & _).
    destruct (Hp q y' Hy') as (y & Hy & Howny & _).
    apply (T7 p q x y Hx Hy). congruence.
  - intros a so p x' Ha Hf Hx'.
    destruct (Hp p x' Hx') as (x & Hx & _ & _ & -> & -> & ->).
    exact (T8 a so p x Ha Hf Hx).
  - intros p x' Hx'. destruct (Hp p x' Hx') as (x & Hx & _ & _ & _ & -> & ->).
    exact (T9 p x Hx).
Qed.

Lemma tidy_unregister k w w' :
  tidy w ->
  heap w' = heap w -> procs w' = procs w -> sessions w' = sessions w ->
  streams w' = JsMap.delete k (streams w) ->
  tidy w'.
Proof.
  intros [T1 T2 T3 T4 T5 T6 T7 T8 T9] Hh Hp Hs Hm.
  split; rewrite ?Hh, ?Hp, ?Hs; try assumption.
  intros k' a Hget. rewrite Hm in Hget.
  apply get_delete_Some in Hget as [_ Hget]. exact (T5 k' a Hget).
Qed.

(** The session at [c] changes while it holds no StreamOutput. *)
Lemma tidy_session_idle c s s' w w' :
  tidy w ->
  sessions w !! c = Some s -> streamOutput s = None -> streamOutput s' = None ->
  heap w' = heap w -> procs w' = procs w -> streams w' = streams w ->
  sessions w' = <[c := s']> (sessions w) ->
  tidy w'.
Proof.
  intros [T1 T2 T3 T4 T5 T6 T7 T8 T9] Hc Hnone Hnone' Hh Hp Hm Hs.
  assert (Hback : forall c' x a, sessions w' !! c' = Some x ->
            streamOutput x = Some a -> c' <> c /\ sessions w !! c' = Some x).
  { intros c' x a Hx Hso. rewrite Hs in Hx.
    apply list_lookup_insert_Some in Hx as [(-> & <- & _)|(Hne & Hx)];
      [congruence | auto]. }
  assert (Hkeep : forall c' x a, sessions w !! c' = Some x ->
            streamOutput x = Some a -> sessions w' !! c' = Some x).
  { intros c' x a Hx Hso. rewrite Hs.
    rewrite list_lookup_insert_ne; [exact Hx|]. intros <-. congruence. }
  split; rewrite ?Hh, ?Hp, ?Hm; try assumption.
  - intros c' x a Hx Hso. destruct (Hback c' x a Hx Hso) as [_ Hx0].
    exact (T2 c' x a Hx0 Hso).
  - intros c1 c2 x1 x2 a Hx1 Hx2 H1 H2.
    destruct (Hback c1 x1 a Hx1 H1) as [_ Hy1].
    destruct (Hback c2 x2 a Hx2 H2) as [_ Hy2].
    exact (T3 c1 c2 x1 x2 a Hy1 Hy2 H1 H2).
  - intros a so Ha. destruct (T4 a so Ha) as (c' & x & Hx & Hso).
    exists c', x. split; [exact (Hkeep c' x a Hx Hso) | exact Hso].
  - intros k a Hget. destruct (T5 k a Hget) as (c' & x & Hx & Hcon & Hso & Hpl).
    exists c', x. split; [exact (Hkeep c' x a Hx Hso) | auto].
Qed.

(** The session at [c] is disconnected when the registry has no entry for
    its platform. *)
Lemma tidy_disconnect c s w w' :
  tidy w ->
  sessions w !! c = Some s ->
  JsMap.get (session_platform s) (streams w) = None ->
  heap w' = heap w -> procs w' = procs w -> streams w' = streams w ->
  sessions w'
  = <[c := {| streamOutput := streamOutput s;
              session_platform := session_platform s;
              connected := false |}]> (sessions w) ->
  tidy w'.
Proof.
  intros [T1 T2 T3 T4 T5 T6 T7 T8 T9] Hc Hnone Hh Hp Hm Hs.
  assert (Hlt : c < length (sessions w)) by (eapply lookup_lt_Some; exact Hc).
  assert (Hback : forall c' x, sessions w' !! c' = Some x ->
            exists x0, sessions w !! c' = Some x0 /\
                       streamOutput x0 = streamOutput x /\
                       session_platform x0 = session_platform x).
  { intros c' x Hx. rewrite Hs in Hx.
    apply list_lookup_insert_Some in Hx as [(-> & <- & _)|(Hne & Hx)].
    - exists s. auto.
    - exists x. auto. }
  assert (Hkeep : forall c' x, sessions w !! c' = Some x ->
            exists x', sessions w' !! c' = Some x' /\
                       streamOutput x' = streamOutput x /\
                       (c' <> c -> x' = x)).
  { intros c' x Hx. rewrite Hs. destruct (decide (c = c')) as [<-|Hne].
    - rewrite list_lookup_insert_eq by exact Hlt.
      assert (x = s) as -> by congruence.
      eexists. split; [reflexivity|]. split; [reflexivity|]. congruence.
    - rewrite list_lookup_insert_ne by exact Hne. exists x. auto. }
  split; rewrite ?Hh, ?Hp, ?Hm; try assumption.
  - intros c' x a Hx Hso. destruct (Hback c' x Hx) as (x0 & Hx0 & Hso0 & Hpl0).
    rewrite <- Hpl0. apply (T2 c' x0 a Hx0). congruence.
  - intros c1 c2 x1 x2 a Hx1 Hx2 H1 H2.
    destruct (Hback c1 x1 Hx1) as (y1 & Hy1 & Hs1 & _).
    destruct (Hback c2 x2 Hx2) as (y2 & Hy2 & Hs2 & _).
    apply (T3 c1 c2 y1 y2 a Hy1 Hy2); congruence.
  - intros a so Ha. destruct (T4 a so Ha) as (c' & x & Hx & Hso).
    destruct (Hkeep c' x Hx) as (x' & Hx' & Hso' & _).
    exists c', x'. split; [exact Hx' | congruence].
  - intros k a Hget. destruct (T5 k a Hget) as (c' & x & Hx & Hcon & Hso & Hpl).
    destruct (Hkeep c' x Hx) as (x' & Hx' & _ & Hsame).
    assert (Hne : c' <> c).
    { intros ->. assert (x = s) as -> by congruence. congruence. }
    rewrite (Hsame Hne) in Hx'. exists c', x. auto.
Qed.

Lemma tidy_connection w : tidy w -> tidy (on_connection w).
Proof.
  intros [T1 T2 T3 T4 T5 T6 T7 T8 T9].
  assert (Hback : forall c x a, ((sessions w ++ [new_session])%list : list session) !! c = Some x ->
            streamOutput x = Some a -> sessions w !! c = Some x).
  { intros c x a Hx Hso. apply lookup_app_Some in Hx as [Hx|[_ Hx]]; [exact Hx|].
    destruct (c - length (sessions w)); simpl in Hx.
    - injection Hx as <-. discriminate.
    - rewrite lookup_nil in Hx. discriminate. }
  split; simpl; try assumption.
  - intros c x a Hx Hso. exact (T2 c x a (Hback c x a Hx Hso) Hso).
  - intros c1 c2 x1 x2 a Hx1 Hx2 H1 H2.
    exact (T3 c1 c2 x1 x2 a (Hback _ _ _ Hx1 H1) (Hback _ _ _ Hx2 H2) H1 H2).
  - intros a so Ha. destruct (T4 a so Ha) as (c & x & Hx & Hso).
    exists c, x. split; [apply lookup_app_l_Some; exact Hx | exact Hso].
  - intros k a Hget. destruct (T5 k a Hget) as (c & x & Hx & Hrest).
    exists c, x. split; [apply lookup_app_l_Some; exact Hx | exact Hrest].
Qed.

End Tidy.

Section TidySteps.

Variable env : environment.

(** A session is given a new StreamOutput, which may have spawned. *)
Lemma tidy_construct c s p so w w' (born : list child) :
  consistent w -> tidy w ->
  sessions w !! c = Some s -> streamOutput s = None -> connected s = true ->
  platform so = p ->
  heap w' = (heap w ++ [so])%list ->
  sessions w' = <[c := holding s p (length (heap w))]> (sessions w) ->
  procs w' = (procs w ++ born)%list ->
  (born = [] /\ ffmpeg so = None /\ isStreaming so = false /\
   streams w' = streams w
   \/
   (exists r, born = [new_child (length (heap w))
                        (streamUrl so ++ "/" ++ streamKey so) r]) /\
   ffmpeg so = Some (length (procs w)) /\ isStreaming so = true /\
   streams w' = JsMap.set p (length (heap w)) (streams w)) ->
  tidy w'.
Proof.
  intros Hcons [T1 T2 T3 T4 T5 T6 T7 T8 T9] Hc Hnone Hcon Hpl Hh Hs Hp Hcase.
  set (a := length (heap w)) in *.
  assert (Hclt : c < length (sessions w)) by (eapply lookup_lt_Some; exact Hc).
  assert (Hnew : heap w' !! a = Some so)
    by (rewrite Hh; apply list_lookup_middle; reflexivity).
  assert (Hold : forall a' x, heap w !! a' = Some x -> heap w' !! a' = Some x)
    by (intros a' x Hx; rewrite Hh; apply lookup_app_l_Some; exact Hx).
  assert (Holdlt : forall a' x, heap w !! a' = Some x -> a' <> a)
    by (intros a' x Hx; apply lookup_lt_Some in Hx; unfold a; lia).
  assert (Hheap : forall a' x, heap w' !! a' = Some x ->
            heap w !! a' = Some x \/ (a' = a /\ x = so)).
  { intros a' x Hx. rewrite Hh in Hx.
    apply lookup_app_Some in Hx as [Hx|[Hge Hx]]; [left; exact Hx|].
    right. destruct (a' - length (heap w)) eqn:E; simpl in Hx.
    - injection Hx as <-. split; [unfold a; lia | reflexivity].
    - rewrite lookup_nil in Hx. discriminate. }
  assert (Hsess : forall c' x, sessions w' !! c' = Some x ->
            (c' = c /\ x = holding s p a) \/ (c' <> c /\ sessions w !! c' = Some x)).
  { intros c' x Hx. rewrite Hs in Hx.
    apply list_lookup_insert_Some in Hx as [(-> & <- & _)|(Hne & Hx)]; auto. }
  assert (Hkeep : forall c' x a', sessions w !! c' = Some x ->
            streamOutput x = Some a' -> sessions w' !! c' = Some x).
  { intros c' x a' Hx Hso. rewrite Hs.
    rewrite list_lookup_insert_ne; [exact Hx|]. intros <-. congruence. }
  assert (Hhold : sessions w' !! c = Some (holding s p a))
    by (rewrite Hs; apply list_lookup_insert_eq; exact Hclt).
  assert (Hprocs : forall q x, procs w' !! q = Some x ->
            procs w !! q = Some x \/
            (q = length (procs w) /\
             exists r, x = new_child a (streamUrl so ++ "/" ++ streamKey so) r /\
                       ffmpeg so = Some (length (procs w)))).
  { intros q x Hx. rewrite Hp in Hx.
    apply lookup_app_Some in Hx as [Hx|[Hge Hx]]; [left; exact Hx|].
    right. destruct Hcase as [(-> & _)|((r & ->) & Hf & _)].
    - rewrite lookup_nil in Hx. discriminate.
    - destruct (q - length (procs w)) eqn:E; simpl in Hx.
      + injection Hx as <-. split; [lia|]. exists r. auto.
      + rewrite lookup_nil in Hx. discriminate. }
  split.
  - intros a' x Hx. destruct (Hheap a' x Hx) as [Hx0|[-> ->]].
    + exact (T1 a' x Hx0).
    + destruct Hcase as [(_ & -> & -> & _)|(_ & -> & -> & _)];
        split; congruence.
  - intros c' x a' Hx Hso. destruct (Hsess c' x Hx) as [[-> ->]|[_ Hx0]].
    + simpl in Hso. injection Hso as <-. exists so. auto.
    + destruct (T2 c' x a' Hx0 Hso) as (y & Hy & Hpy).
      exists y. split; [exact (Hold a' y Hy) | exact Hpy].
  - intros c1 c2 x1 x2 a' Hx1 Hx2 H1 H2.
    destruct (Hsess c1 x1 Hx1) as [[-> ->]|[Hn1 Hy1]];
      destruct (Hsess c2 x2 Hx2) as [[-> ->]|[Hn2 Hy2]].
    + reflexivity.
    + simpl in H1. injection H1 as <-.
      destruct (T2 c2 x2 a Hy2 H2) as (y & Hy & _). destruct (Holdlt a y Hy eq_refl).
    + simpl in H2. injection H2 as <-.
      destruct (T2 c1 x1 a Hy1 H1) as (y & Hy & _). destruct (Holdlt a y Hy eq_refl).
    + exact (T3 c1 c2 x1 x2 a' Hy1 Hy2 H1 H2).
  - intros a' x Hx. destruct (Hheap a' x Hx) as [Hx0|[-> ->]].
    + destruct (T4 a' x Hx0) as (c' & y & Hy & Hso).
      exists c', y. split; [exact (Hkeep c' y a' Hy Hso) | exact Hso].
    + exists c, (holding s p a). split; [exact Hhold | reflexivity].
  - intros k a' Hget.
    assert (Hentry : JsMap.get k (streams w) = Some a' \/ (k = p /\ a' = a)).
    { destruct Hcase as [(_ & _ & _ & Hm)|(_ & _ & _ & Hm)]; rewrite Hm in Hget.
      - left. exact Hget.
      - apply get_set_Some in Hget as [[<- ->]|[_ Hget]]; auto. }
    destruct Hentry as [Hget0|[-> ->]].
    + destruct (T5 k a' Hget0) as (c' & y & Hy & Hcy & Hso & Hpy).
      exists c', y. split; [exact (Hkeep c' y a' Hy Hso) | auto].
    + exists c, (holding s p a). split; [exact Hhold|]. simpl. auto.
  - intros q x Hx. destruct (Hprocs q x Hx) as [Hx0|(_ & r & -> & _)].
    + destruct (T6 q x Hx0) as (y & Hy & Hurl).
      exists y. split; [exact (Hold _ y Hy) | exact Hurl].
    + exists so. simpl. auto.
  - intros q1 q2 x1 x2 Hx1 Hx2 Hown.
    destruct (Hprocs q1 x1 Hx1) as [Hy1|(-> & r1 & -> & _)];
      destruct (Hprocs q2 x2 Hx2) as [Hy2|(-> & r2 & -> & _)].
    + exact (T7 q1 q2 x1 x2 Hy1 Hy2 Hown).
    + simpl in Hown. destruct (T6 q1 x1 Hy1) as (y & Hy & _).
      rewrite Hown in Hy. destruct (Holdlt a y Hy eq_refl).
    + simpl in Hown. destruct (T6 q2 x2 Hy2) as (y & Hy & _).
      rewrite <- Hown in Hy. destruct (Holdlt a y Hy eq_refl).
    + reflexivity.
  - intros a' x q ch Hx Hf Hch. destruct (Hheap a' x Hx) as [Hx0|[-> ->]].
    + destruct (child_owned w Hcons a' x q Hx0 Hf) as (ch0 & Hch0 & _).
      assert (Hch' : procs w' !! q = Some ch0)
        by (rewrite Hp; apply lookup_app_l_Some; exact Hch0).
      assert (ch = ch0) as -> by congruence.
      exact (T8 a' x q ch0 Hx0 Hf Hch0).
    + destruct (Hprocs q ch Hch) as [Hch0|(_ & r & -> & _)]; [|simpl; auto].
      destruct Hcase as [(_ & Hf' & _)|(_ & Hf' & _)]; [congruence|].
      rewrite Hf' in Hf. injection Hf as <-.
      apply lookup_lt_Some in Hch0. lia.
  - intros q x Hx. destruct (Hprocs q x Hx) as [Hx0|(_ & r & -> & _)].
    + exact (T9 q x Hx0).
    + left. reflexivity.
Qed.

End TidySteps.

Section TidyLoop.

Variable env : environment.

Lemma tidy_upd_child p f w :
  tidy w ->
  (forall ch, owner (f ch) = owner ch /\ rtmpUrl (f ch) = rtmpUrl ch /\
              close_emitted (f ch) = close_emitted ch /\
              stdin_ended (f ch) = stdin_ended ch /\ signals (f ch) = signals ch) ->
  tidy (upd_child p f w).
Proof.
  intros Hw Hf. unfold upd_child.
  destruct (procs w !! p) as [ch|] eqn:Hch; [|exact Hw].
  apply (tidy_children w); try reflexivity; [exact Hw|].
  simpl. intros q x' Hx'.
  apply list_lookup_insert_Some in Hx' as [(-> & <- & _)|(Hne & Hx')].
  - exists ch. split; [exact Hch | apply Hf].
  - exists x'. auto 10.
Qed.

Lemma tidy_write a data w : tidy w -> tidy (write a data w).
Proof.
  intros Hw. unfold write.
  destruct (heap w !! a) as [so|]; [|exact Hw].
  destruct (ffmpeg so) as [p|]; [|exact Hw].
  destruct (procs w !! p) as [ch|]; [|exact Hw].
  destruct (stdin_writable ch); [|exact Hw].
  apply (tidy_same (upd_child p (receive data) w)); try reflexivity.
  apply tidy_upd_child; [exact Hw|]. intros ch0. auto 10.
Qed.

Lemma tidy_stop a w : consistent w -> tidy w -> tidy (stop a w).
Proof.
  intros Hcons Hw. destruct (heap w !! a) as [so|] eqn:Ha.
  - destruct (ffmpeg so) as [p|] eqn:Hf.
    + destruct (child_owned w Hcons a so p Ha Hf) as (ch & Hch & Hown).
      rewrite (stop_running a so p ch w Ha Hf Hch).
      apply (tidy_retire a so w); try reflexivity; try assumption.
      simpl. intros q x' Hx'.
      apply list_lookup_insert_Some in Hx' as [(-> & <- & _)|(Hne & Hx')].
      * exists ch. split; [exact Hch|]. split; [reflexivity|].
        split; [reflexivity|]. right. split; [exact Hown|]. right. simpl.
        destruct (held_child_live w Hw a so q ch Ha Hf Hch) as (_ & _ & ->).
        auto.
      * exists x'. auto.
    + rewrite stop_idle; [exact Hw|]. intros so' Hso'. congruence.
  - rewrite stop_idle; [exact Hw|]. intros so' Hso'. congruence.
Qed.

Lemma tidy_on_child_close p ch code w :
  consistent w -> tidy w ->
  procs w !! p = Some ch ->
  tidy (on_child_close (owner ch) code (upd_child p mark_closed w)).
Proof.
  intros Hcons Hw Hch.
  destruct (owner_allocated w Hw p ch Hch) as (so & Hso & _).
  unfold upd_child. rewrite Hch.
  rewrite (on_child_close_clears (owner ch) so code) by exact Hso.
  apply (tidy_retire (owner ch) so w); try reflexivity; try assumption.
  simpl. intros q x' Hx'.
  apply list_lookup_insert_Some in Hx' as [(-> & <- & _)|(Hne & Hx')].
  - exists ch. split; [exact Hch|]. split; [reflexivity|].
    split; [reflexivity|]. right. split; [reflexivity|].
    exact (signalled_once w Hw q ch Hch).
  - exists x'. auto.
Qed.

Lemma tidy_on_child_error p ch w :
  consistent w -> tidy w ->
  procs w !! p = Some ch ->
  tidy (on_child_error (owner ch) w).
Proof.
  intros Hcons Hw Hch.
  destruct (owner_allocated w Hw p ch Hch) as (so & Hso & _).
  rewrite (on_child_error_clears (owner ch) so w Hso).
  apply (tidy_retire (owner ch) so w); try reflexivity; try assumption.
  simpl. intros q x' Hx'. exists x'. auto.
Qed.

Lemma tidy_configure c s payload w :
  consistent w -> tidy w ->
  sessions w !! c = Some s -> connected s = true -> streamOutput s = None ->
  tidy (configure env c s payload w).
Proof.
  intros Hcons Hw Hc Hcon Hnone.
  destruct (configure_cases env c s payload w)
    as [(xs & ->)|[(p & xs & ->)|[(field & cfg & key & -> & Hres & Hr)
                                 |(field & cfg & key & -> & Hres & Ht)]]].
  - rewrite emit_all_trace. apply (tidy_same w); auto.
  - apply (tidy_session_idle c s (awaiting s p) w); auto.
  - rewrite (configure_streaming env c s field cfg key w Hres Hr).
    eapply (tidy_construct c s (platform_of field)
              (with_child (Some (length (procs w))) true
                 (fresh (platform_of field) key cfg)) w);
      try eassumption; try reflexivity.
    right. split; [eexists; reflexivity|]. auto.
  - rewrite (configure_spawn_throws env c s field cfg key w Hres Ht).
    eapply (tidy_construct c s (platform_of field)
              (fresh (platform_of field) key cfg) w _ []);
      try eassumption; try reflexivity.
    + simpl. rewrite app_nil_r. reflexivity.
    + left. auto.
Qed.

Lemma tidy_on_close c s w :
  consistent w -> tidy w ->
  sessions w !! c = Some s -> tidy (on_close c w).
Proof.
  intros Hcons Hw Hc. unfold on_close. rewrite Hc.
  set (s1 := {| connected := false |}).
  set (w1 := emit _ _).
  destruct (streamOutput s) as [a|] eqn:Hso.
  - set (k := session_platform s).
    pose (wA := stop a w).
    pose (wB := set_streams (JsMap.delete k (streams wA)) wA).
    assert (HA : tidy wA) by (apply tidy_stop; assumption).
    assert (HB : tidy wB) by (apply (tidy_unregister k wA); auto).
    assert (Hsame : heap (stop a w1) = heap wA /\ procs (stop a w1) = procs wA /\
                    streams (stop a w1) = streams w /\ streams wA = streams w /\
                    sessions (stop a w1) = <[c := s1]> (sessions w) /\
                    sessions wA = sessions w).
    { unfold wA. destruct (heap w !! a) as [so|] eqn:Ha.
      - destruct (ffmpeg so) as [p|] eqn:Hf.
        + destruct (child_owned w Hcons a so p Ha Hf) as (ch & Hch & _).
          rewrite (stop_running a so p ch w1 Ha Hf Hch).
          rewrite (stop_running a so p ch w Ha Hf Hch). simpl. auto 10.
        + rewrite !stop_idle by (simpl; intros so' Hso'; congruence).
          simpl. auto 10.
      - rewrite !stop_idle by (simpl; intros so' Hso'; congruence).
        simpl. auto 10. }
    destruct Hsame as (H1 & H2 & H3 & H4 & H5 & H6).
    apply (tidy_disconnect c s wB); simpl; try assumption.
    + rewrite H6. exact Hc.
    + apply JsMapFacts.get_delete_eq.
    + rewrite H3, H4. reflexivity.
    + rewrite H5, H6. unfold s1. rewrite Hso. reflexivity.
  - apply (tidy_session_idle c s s1 w); auto.
Qed.

Lemma tidy_handle e w : consistent w -> tidy w -> tidy (handle env e w).
Proof.
  intros Hcons Hw. destruct e as [|c m|c|c|p|p code|p]; simpl.
  - apply tidy_connection, Hw.
  - unfold on_message.
    destruct (sessions w !! c) as [s|] eqn:Hc; [|exact Hw].
    destruct (connected s) eqn:Hcon; [|exact Hw].
    destruct (streamOutput s) as [a|] eqn:Hso, m as [payload|data]; try exact Hw.
    + apply tidy_write, Hw.
    + apply tidy_configure; assumption.
  - destruct (sessions w !! c) as [s|] eqn:Hc; [|exact Hw].
    destruct (connected s); [|exact Hw].
    apply (tidy_on_close c s); assumption.
  - unfold on_error.
    destruct (sessions w !! c) as [s|]; [|exact Hw].
    destruct (connected s); [|exact Hw].
    apply (tidy_same w); auto.
  - apply tidy_upd_child; [exact Hw|]. intros ch. auto 10.
  - destruct (procs w !! p) as [ch|] eqn:Hch; [|exact Hw].
    destruct (close_emitted ch); [exact Hw|].
    apply tidy_on_child_close; assumption.
  - destruct (procs w !! p) as [ch|] eqn:Hch; [|exact Hw].
    apply (tidy_on_child_error p); assumption.
Qed.

Lemma consistent_tidy_run es w :
  consistent w -> tidy w -> consistent (run env es w) /\ tidy (run env es w).
Proof.
  revert w. induction es as [|e es IH]; intros w Hc Ht; simpl; [auto|].
  apply IH; [apply consistent_handle | apply tidy_handle]; assumption.
Qed.

Lemma reachable_tidy w : reachable env w -> tidy w.
Proof.
  intros [es ->]. apply consistent_tidy_run; [apply consistent_initial | apply tidy_initial].
Qed.

End TidyLoop.

(** ** What holds in every world the server reaches *)

Lemma keys_in_get k m : k ∈ JsMap.keys m -> exists a, JsMap.get k m = Some a.
Proof.
  induction m as [|[k' v'] m IH]; simpl; intros Hin; [inversion Hin|].
  destruct (String.eqb k' k) eqn:E; [eauto|].
  apply IH. inversion Hin; subst; [|assumption].
  rewrite String.eqb_refl in E. discriminate.
Qed.

(** X1.  In every world the server reaches, [isStreaming] of a
    StreamOutput is true exactly when its child reference is set: the
    count [activeStreams] of the health report is the number of registered
    StreamOutputs that hold a ChildProcess. *)
Theorem running_flag_matches_child
    (env : environment) (w : world) (a : addr) :
  reachable env w ->
  is_streaming w a = true <->
  exists (so : StreamOutput) (p : pid),
    heap w !! a = Some so /\ ffmpeg so = Some p.
Proof.
  intros Hreach. pose proof (reachable_tidy env w Hreach) as Ht.
  unfold is_streaming. split.
  - destruct (heap w !! a) as [so|] eqn:Ha; [|discriminate].
    intros Hs. apply (flags_agree w Ht a so Ha) in Hs.
    destruct (ffmpeg so) as [p|] eqn:Hf; [eauto | congruence].
  - intros (so & p & Ha & Hf). rewrite Ha.
    apply (flags_agree w Ht a so Ha). congruence.
Qed.

Lemma running_flag_matches_child_witness :
  is_streaming (demo_streaming SpawnOk) 0 = true <->
  exists (so : StreamOutput) (p : pid),
    heap (demo_streaming SpawnOk) !! 0 = Some so /\ ffmpeg so = Some p.
Proof.
  apply (running_flag_matches_child (demo_env SpawnOk)).
  exists [WsConnection; configure_for 0 "twitch"]. reflexivity.
Defined.

(** X2.  Every platform that the health report lists has a connection
    that is still open, was configured for that platform, and holds the
    StreamOutput registered under it; that StreamOutput was constructed
    for the same platform. *)
Theorem listed_platform_has_open_session
    (env : environment) (w : world) (k : string) :
  reachable env w ->
  k ∈ (health w).1 ->
  exists (a : addr) (c : conn) (s : session) (so : StreamOutput),
    JsMap.get k (streams w) = Some a /\
    sessions w !! c = Some s /\ connected s = true /\
    streamOutput s = Some a /\ session_platform s = k /\
    heap w !! a = Some so /\ platform so = k.
Proof.
  intros Hreach Hin. pose proof (reachable_tidy env w Hreach) as Ht.
  destruct (keys_in_get k (streams w) Hin) as (a & Hget).
  destruct (entry_session w Ht k a Hget) as (c & s & Hc & Hcon & Hso & Hpl).
  destruct (held_allocated w Ht c s a Hc Hso) as (so & Ha & Hp).
  exists a, c, s, so. repeat split; try assumption. congruence.
Qed.

Lemma listed_platform_has_open_session_witness :
  exists (a : addr) (c : conn) (s : session) (so : StreamOutput),
    JsMap.get "twitch" (streams demo_two_sessions) = Some a /\
    sessions demo_two_sessions !! c = Some s /\ connected s = true /\
    streamOutput s = Some a /\ session_platform s = "twitch" /\
    heap demo_two_sessions !! a = Some so /\ platform so = "twitch".
Proof.
  apply (listed_platform_has_open_session (demo_env SpawnOk)).
  - exists [WsConnection; configure_for 0 "twitch";
            WsConnection; configure_for 1 "twitch"]. reflexivity.
  - vm_compute. apply list_elem_of_here.
Defined.

(** X3.  Every ffmpeg child belongs to one connection: the StreamOutput
    that spawned it is held by a session, by no other session, and has
    spawned no other child; and the child was started towards the URL and
    key that this StreamOutput was constructed with, for the platform of
    that session. *)
Theorem child_belongs_to_one_session
    (env : environment) (w : world) (p : pid) (ch : child) :
  reachable env w ->
  procs w !! p = Some ch ->
  exists (c : conn) (s : session) (so : StreamOutput),
    sessions w !! c = Some s /\ streamOutput s = Some (owner ch) /\
    heap w !! owner ch = Some so /\
    platform so = session_platform s /\
    rtmpUrl ch = streamUrl so ++ "/" ++ streamKey so /\
    (forall (c' : conn) (s' : session),
        sessions w !! c' = Some s' -> streamOutput s' = Some (owner ch) ->
        c' = c) /\
    (forall (q : pid) (ch' : child),
        procs w !! q = Some ch' -> owner ch' = owner ch -> q = p).
Proof.
  intros Hreach Hch. pose proof (reachable_tidy env w Hreach) as Ht.
  destruct (owner_allocated w Ht p ch Hch) as (so & Ha & Hurl).
  destruct (allocated_held w Ht (owner ch) so Ha) as (c & s & Hc & Hso).
  destruct (held_allocated w Ht c s (owner ch) Hc Hso) as (so' & Ha' & Hpl).
  assert (so' = so) as -> by congruence.
  exists c, s, so. repeat split; try assumption.
  - intros c' s' Hc' Hso'.
    exact (held_distinct w Ht c' c s' s (owner ch) Hc' Hc Hso' Hso).
  - intros q ch' Hq Hown.
    exact (owner_distinct w Ht q p ch' ch Hq Hch Hown).
Qed.

Lemma child_belongs_to_one_session_witness :
  exists (c : conn) (s : session) (so : StreamOutput),
    sessions demo_two_sessions !! c = Some s /\
    streamOutput s = Some 1 /\
    heap demo_two_sessions !! 1 = Some so /\
    platform so = session_platform s /\
    "rtmp://a.rtmp.youtube.com/live2/tw-key" = streamUrl so ++ "/" ++ streamKey so.
Proof.
  destruct (child_belongs_to_one_session (demo_env SpawnOk) demo_two_sessions 1
              (new_child 1 "rtmp://a.rtmp.youtube.com/live2/tw-key" SpawnOk))
    as (c & s & so & H1 & H2 & H3 & H4 & H5 & _).
  - exists [WsConnection; configure_for 0 "twitch";
            WsConnection; configure_for 1 "twitch"]. reflexivity.
  - vm_compute; reflexivity.
  - exists c, s, so. auto.
Defined.

(** X4.  A child is signalled at most once, with SIGTERM and after the
    end of its stdin; a child that has been signalled, whose stdin has been
    ended or whose 'close' has been emitted is referenced by no
    StreamOutput any more. *)
Theorem child_signalled_at_most_once
    (env : environment) (w : world) (p : pid) (ch : child) :
  reachable env w ->
  procs w !! p = Some ch ->
  (signals ch = [] \/ (signals ch = ["SIGTERM"] /\ stdin_ended ch = true)) /\
  (signals ch <> [] \/ stdin_ended ch = true \/ close_emitted ch = true ->
   forall (a : addr) (so : StreamOutput),
     heap w !! a = Some so -> ffmpeg so <> Some p).
Proof.
  intros Hreach Hch. pose proof (reachable_tidy env w Hreach) as Ht.
  split; [exact (signalled_once w Ht p ch Hch)|].
  intros Hdead a so Ha Hf.
  destruct (held_child_live w Ht a so p ch Ha Hf Hch) as (H1 & H2 & H3).
  destruct Hdead as [H|[H|H]]; congruence.
Qed.

Lemma child_signalled_at_most_once_witness :
  let w := handle (demo_env SpawnOk) (WsClose 0) (demo_streaming SpawnOk) in
  exists ch : child,
    procs w !! 0 = Some ch /\
    (signals ch = [] \/ (signals ch = ["SIGTERM"] /\ stdin_ended ch = true)).
Proof.
  intros w. eexists. split; [vm_compute; reflexivity|].
  refine (proj1 (child_signalled_at_most_once (demo_env SpawnOk) w 0 _ _ _)).
  - exists [WsConnection; configure_for 0 "twitch"; WsClose 0]. reflexivity.
  - vm_compute; reflexivity.
Defined.

(** ** Configuration is accepted once *)

(** Case analysis on every [match] of the goal. *)
Ltac split_matches :=
  repeat (match goal with
          | |- context [match ?x with _ => _ end] => destruct x eqn:?
          end; simpl);
  try reflexivity.

Section Once.

Variable env : environment.

Lemma stop_sessions a w : sessions (stop a w) = sessions w.
Proof.
  unfold stop. destruct (heap w !! a) as [so|]; [|reflexivity].
  destruct (ffmpeg so) as [p|]; [|reflexivity].
  unfold clear, upd_child. simpl.
  repeat (match goal with
          | |- context [match ?x with _ => _ end] => destruct x eqn:?
          end; simpl); reflexivity.
Qed.

Lemma stop_streams a w : streams (stop a w) = streams w.
Proof.
  unfold stop. destruct (heap w !! a) as [so|]; [|reflexivity].
  destruct (ffmpeg so) as [p|]; [|reflexivity].
  unfold clear, upd_child. simpl.
  repeat (match goal with
          | |- context [match ?x with _ => _ end] => destruct x eqn:?
          end; simpl); reflexivity.
Qed.

Lemma sessions_unchanged_by_child_events w w' :
  sessions w' = sessions w ->
  forall c s, sessions w !! c = Some s -> sessions w' !! c = Some s.
Proof. intros ->. auto. Qed.

(** One event leaves a session that holds a StreamOutput with that
    StreamOutput and its platform. *)
Lemma holding_session_step e c s a w :
  sessions w !! c = Some s -> streamOutput s = Some a ->
  exists s',
    sessions (handle env e w) !! c = Some s' /\
    streamOutput s' = Some a /\ session_platform s' = session_platform s.
Proof.
  intros Hc Hso.
  assert (Hclt : c < length (sessions w)) by (eapply lookup_lt_Some; exact Hc).
  assert (Hsame : forall w', sessions w' = sessions w ->
            exists s', sessions w' !! c = Some s' /\
                       streamOutput s' = Some a /\
                       session_platform s' = session_platform s)
    by (intros w' ->; eauto).
  assert (Hupd : forall w' c' x, sessions w' = <[c' := x]> (sessions w) ->
            (c' = c -> streamOutput x = Some a /\
                       session_platform x = session_platform s) ->
            exists s', sessions w' !! c = Some s' /\
                       streamOutput s' = Some a /\
                       session_platform s' = session_platform s).
  { intros w' c' x Hw' Hx. rewrite Hw'. destruct (decide (c' = c)) as [->|Hne].
    - rewrite list_lookup_insert_eq by exact Hclt. exists x. split; [reflexivity|auto].
    - rewrite list_lookup_insert_ne by exact Hne. eauto. }
  destruct e as [|c' m|c'|c'|p|p code|p]; simpl.
  - exists s. split; [apply lookup_app_l_Some; exact Hc | auto].
  - unfold on_message.
    destruct (sessions w !! c') as [s0|] eqn:Hc'; [|eauto].
    destruct (connected s0); [|eauto].
    destruct (streamOutput s0) as [a0|] eqn:Hso0, m as [payload|data]; eauto.
    + apply Hsame. unfold write.
      repeat (match goal with
              | |- context [match ?x with _ => _ end] => destruct x eqn:?
              end; simpl); try reflexivity.
      unfold upd_child. rewrite Heqo1. reflexivity.
    + assert (Hne : c' = c -> False) by (intros ->; congruence).
      destruct (configure_cases env c' s0 payload w)
        as [(xs & ->)|[(p & xs & ->)|[(field & cfg & key & -> & Hres & Hr)
                                     |(field & cfg & key & -> & Hres & Ht)]]].
      * apply Hsame. rewrite emit_all_trace. reflexivity.
      * eapply Hupd; [reflexivity|]. intros E. destruct (Hne E).
      * rewrite (configure_streaming env c' s0 field cfg key w Hres Hr).
        eapply Hupd; [reflexivity|]. intros E. destruct (Hne E).
      * rewrite (configure_spawn_throws env c' s0 field cfg key w Hres Ht).
        eapply Hupd; [reflexivity|]. intros E. destruct (Hne E).
  - destruct (sessions w !! c') as [s0|] eqn:Hc'; [|eauto].
    destruct (connected s0); [|eauto].
    unfold on_close. rewrite Hc'.
    destruct (streamOutput s0) as [a0|] eqn:Hso0.
    + eapply Hupd.
      * simpl. rewrite stop_sessions. reflexivity.
      * intros ->. simpl. assert (s0 = s) as -> by congruence.
        split; [congruence | reflexivity].
    + eapply Hupd; [reflexivity|]. intros ->. congruence.
  - unfold on_error.
    destruct (sessions w !! c') as [s0|]; [|eauto].
    destruct (connected s0); eauto.
  - apply Hsame. unfold upd_child. destruct (procs w !! p); reflexivity.
  - destruct (procs w !! p) as [ch|] eqn:Hp; [|eauto].
    destruct (close_emitted ch); [eauto|].
    apply Hsame. unfold on_child_close, upd_child, clear. rewrite Hp. simpl.
    split_matches.
  - destruct (procs w !! p) as [ch|] eqn:Hp; [|eauto].
    apply Hsame. unfold on_child_error, clear. simpl. split_matches.
Qed.

End Once.

(** X5.  Configuration is accepted once per connection: once a session
    holds a StreamOutput, no sequence of events, on this or any other
    connection or child, gives it another StreamOutput or another
    platform. *)
Theorem configuration_accepted_once
    (env : environment) (es : list event) (c : conn) (s : session)
    (a : addr) (w : world) :
  sessions w !! c = Some s -> streamOutput s = Some a ->
  exists s' : session,
    sessions (run env es w) !! c = Some s' /\
    streamOutput s' = Some a /\
    session_platform s' = session_platform s.
Proof.
  revert w s. induction es as [|e es IH]; intros w s Hc Hso; simpl.
  - exists s. auto.
  - destruct (holding_session_step env e c s a w Hc Hso) as (s1 & Hc1 & Hso1 & Hp1).
    destruct (IH _ s1 Hc1 Hso1) as (s' & Hc' & Hso' & Hp').
    exists s'. split; [exact Hc'|]. split; [exact Hso' | congruence].
Qed.

Lemma configuration_accepted_once_witness :
  exists s' : session,
    sessions (run (demo_env SpawnOk)
                [configure_for 0 "kick"; WsMessage 0 (Text Unparseable);
                 ChildClose 0 "1"; configure_for 0 "youtube"]
                (demo_streaming SpawnOk)) !! 0 = Some s' /\
    streamOutput s' = Some 0 /\
    session_platform s' = "twitch".
Proof.
  apply (configuration_accepted_once (demo_env SpawnOk) _ 0
           {| streamOutput := Some 0; session_platform := "twitch";
              connected := true |} 0 (demo_streaming SpawnOk)).
  - vm_compute; reflexivity.
  - reflexivity.
Defined.

(** ** stop, again *)

Lemma heap_upd_child p f w : heap (upd_child p f w) = heap w.
Proof. unfold upd_child. destruct (procs w !! p); reflexivity. Qed.

Lemma stop_cleared a w so' :
  heap (stop a w) !! a = Some so' -> ffmpeg so' = None.
Proof.
  unfold stop. destruct (heap w !! a) as [so|] eqn:Ha.
  - destruct (ffmpeg so) as [p|] eqn:Hf.
    + rewrite (clear_lookup a so)
        by (simpl; rewrite heap_upd_child; simpl; rewrite heap_upd_child; exact Ha).
      intros [= <-]. reflexivity.
    + rewrite Ha. intros [= <-]. exact Hf.
  - rewrite Ha. discriminate.
Qed.

(** X6.  [stop()] is idempotent: a second call right after the first
    changes nothing and prints nothing, and so does a call on a
    StreamOutput that holds no child.  On a StreamOutput that holds a
    child, [stop()] ends the child's stdin, then sends SIGTERM, then clears
    the StreamOutput, in this order, without waiting for the child. *)
Theorem stop_is_idempotent (a : addr) (w : world) :
  stop a (stop a w) = stop a w /\
  (forall so : StreamOutput,
      heap w !! a = Some so -> ffmpeg so = None -> stop a w = w) /\
  (forall (so : StreamOutput) (p : pid) (ch : child),
      heap w !! a = Some so -> ffmpeg so = Some p -> procs w !! p = Some ch ->
      trace (stop a w)
      = (trace w ++ [ConsoleLog (tag so ++ " Stopping ffmpeg");
                     StdinEnd p; Kill p "SIGTERM"; Cleared a])%list /\
      heap (stop a w) !! a = Some (with_child None false so) /\
      procs (stop a w) !! p = Some (signal "SIGTERM" (end_stdin ch)) /\
      stdin_writable (signal "SIGTERM" (end_stdin ch)) = false).
Proof.
  split; [|split].
  - apply stop_idle. intros so'. apply stop_cleared.
  - intros so Ha Hf. apply stop_idle. intros so' Ha'. congruence.
  - intros so p ch Ha Hf Hch. rewrite (stop_running a so p ch w Ha Hf Hch). simpl.
    split; [reflexivity|]. split; [|split; [|reflexivity]].
    + apply list_lookup_insert_eq. eapply lookup_lt_Some. exact Ha.
    + apply list_lookup_insert_eq. eapply lookup_lt_Some. exact Hch.
Qed.

Lemma stop_is_idempotent_witness :
  trace (stop 0 (demo_streaming SpawnOk))
  = (trace (demo_streaming SpawnOk)
     ++ [ConsoleLog "[twitch] Stopping ffmpeg";
         StdinEnd 0; Kill 0 "SIGTERM"; Cleared 0])%list.
Proof.
  apply (proj2 (proj2 (stop_is_idempotent 0 (demo_streaming SpawnOk)))
           {| platform := "twitch"; streamKey := "tw-key";
              streamUrl := "rtmp://a.rtmp.youtube.com/live2";
              ffmpeg := Some 0; isStreaming := true |}
           0 (new_child 0 "rtmp://a.rtmp.youtube.com/live2/tw-key" SpawnOk)).
  - vm_compute; reflexivity.
  - reflexivity.
  - vm_compute; reflexivity.
Defined.

(** ** Shutdown *)

Section Shutdown.

Lemma idle_is_cleared w a so :
  tidy w -> heap w !! a = Some so -> ffmpeg so = None ->
  with_child None false so = so.
Proof.
  intros Ht Ha Hf. pose proof (flags_agree w Ht a so Ha) as Hflags.
  destruct so as [pl key url f running]. simpl in *. subst f.
  destruct running; [|reflexivity].
  destruct (proj1 Hflags eq_refl eq_refl).
Qed.

(** One [stop()], on the heap and on the children. *)
Lemma stop_step a0 w :
  consistent w -> tidy w ->
  (forall a,
      heap (stop a0 w) !! a
      = (fun so => if decide (a = a0) then with_child None false so else so)
          <$> heap w !! a) /\
  (forall so p ch,
      heap w !! a0 = Some so -> ffmpeg so = Some p -> procs w !! p = Some ch ->
      procs (stop a0 w) !! p = Some (signal "SIGTERM" (end_stdin ch))) /\
  (forall p ch,
      procs w !! p = Some ch ->
      (forall so, heap w !! a0 = Some so -> ffmpeg so <> Some p) ->
      procs (stop a0 w) !! p = Some ch).
Proof.
  intros Hcons Ht.
  destruct (heap w !! a0) as [so0|] eqn:Ha0.
  - destruct (ffmpeg so0) as [p0|] eqn:Hf0.
    + destruct (child_owned w Hcons a0 so0 p0 Ha0 Hf0) as (ch0 & Hch0 & Hown0).
      rewrite (stop_running a0 so0 p0 ch0 w Ha0 Hf0 Hch0). simpl.
      split; [|split].
      * intros a. destruct (decide (a = a0)) as [->|Hne].
        -- rewrite list_lookup_insert_eq by (eapply lookup_lt_Some; exact Ha0).
           rewrite Ha0. reflexivity.
        -- rewrite list_lookup_insert_ne by congruence.
           destruct (heap w !! a); reflexivity.
      * intros so p ch [= <-] Hf Hch. assert (p = p0) as -> by congruence.
        assert (ch = ch0) as -> by congruence.
        apply list_lookup_insert_eq. eapply lookup_lt_Some. exact Hch0.
      * intros p ch Hch Hfree.
        rewrite list_lookup_insert_ne; [exact Hch|].
        intros <-. exact (Hfree so0 eq_refl Hf0).
    + rewrite stop_idle by (intros so' Hso'; congruence).
      split; [|split].
      * intros a. destruct (decide (a = a0)) as [->|Hne].
        -- rewrite Ha0. simpl.
           rewrite (idle_is_cleared w a0 so0 Ht Ha0 Hf0). reflexivity.
        -- destruct (heap w !! a); reflexivity.
      * intros so p ch [= <-] Hf. congruence.
      * auto.
  - rewrite stop_idle by (intros so' Hso'; congruence).
    split; [|split].
    + intros a. destruct (decide (a = a0)) as [->|Hne].
      * rewrite Ha0. reflexivity.
      * destruct (heap w !! a); reflexivity.
    + intros so p ch Hso. discriminate.
    + auto.
Qed.

(** [stop()] on each StreamOutput of a list, in order. *)
Lemma stop_all_spec l w :
  consistent w -> tidy w ->
  let w' := fold_left (fun w a => stop a w) l w in
  streams w' = streams w /\ sessions w' = sessions w /\
  consistent w' /\ tidy w' /\
  (forall a,
      heap w' !! a
      = (fun so => if decide (a ∈ l) then with_child None false so else so)
          <$> heap w !! a) /\
  (forall a so p ch,
      a ∈ l -> heap w !! a = Some so -> ffmpeg so = Some p ->
      procs w !! p = Some ch ->
      procs w' !! p = Some (signal "SIGTERM" (end_stdin ch))) /\
  (forall p ch,
      procs w !! p = Some ch ->
      (forall a so, a ∈ l -> heap w !! a = Some so -> ffmpeg so <> Some p) ->
      procs w' !! p = Some ch).
Proof.
  revert w. induction l as [|a0 l IH]; intros w Hcons Ht; simpl.
  - split; [reflexivity|]. split; [reflexivity|]. split; [exact Hcons|].
    split; [exact Ht|]. split; [|split].
    + intros a. destruct (heap w !! a); reflexivity.
    + intros a so p ch Hin. inversion Hin.
    + auto.
  - destruct (stop_step a0 w Hcons Ht) as (S1 & S2 & S3).
    assert (Hcons1 : consistent (stop a0 w)) by (apply consistent_stop; exact Hcons).
    assert (Ht1 : tidy (stop a0 w)) by (apply tidy_stop; assumption).
    destruct (IH (stop a0 w) Hcons1 Ht1) as (I1 & I2 & I3 & I4 & I5 & I6 & I7).
    split; [rewrite I1; apply stop_streams|].
    split; [rewrite I2; apply stop_sessions|].
    split; [exact I3|]. split; [exact I4|]. split; [|split].
    + intros a. rewrite I5, S1. destruct (heap w !! a) as [so|]; [|reflexivity].
      simpl. f_equal.
      destruct (decide (a ∈ a0 :: l)) as [Hin|Hnin];
        destruct (decide (a = a0)) as [->|Hne];
        destruct (decide (_ ∈ l)) as [Hl|Hnl];
        try reflexivity; exfalso.
      * apply elem_of_cons in Hin as [?|?]; contradiction.
      * apply Hnin, list_elem_of_here.
      * apply Hnin, list_elem_of_here.
      * apply Hnin, list_elem_of_further, Hl.
    + intros a so p ch Hin Ha Hf Hch.
      destruct (child_owned w Hcons a so p Ha Hf) as (ch' & Hch' & Hown).
      assert (ch' = ch) as -> by congruence.
      destruct (decide (a = a0)) as [->|Hne].
      * apply I7; [exact (S2 so p ch Ha Hf Hch)|].
        intros a' so' _ Ha' Hf'.
        destruct (child_owned _ Hcons1 a' so' p Ha' Hf') as (ch1 & Hch1 & Hown1).
        rewrite (S2 so p ch Ha Hf Hch) in Hch1. injection Hch1 as <-.
        simpl in Hown1. rewrite Hown in Hown1. subst a'.
        rewrite S1, Ha in Ha'. simpl in Ha'.
        rewrite decide_True in Ha' by reflexivity. injection Ha' as <-.
        discriminate.
      * apply elem_of_cons in Hin as [?|Hin]; [contradiction|].
        apply (I6 a so p ch Hin).
        -- rewrite S1, Ha. simpl. rewrite decide_False by exact Hne. reflexivity.
        -- exact Hf.
        -- apply S3; [exact Hch|]. intros so0 Ha0 Hf0.
           destruct (child_owned w Hcons a0 so0 p Ha0 Hf0) as (ch0 & Hch0 & Hown0).
           congruence.
    + intros p ch Hch Hfree. apply I7.
      * apply S3; [exact Hch|]. intros so0 Ha0.
        exact (Hfree a0 so0 (list_elem_of_here _ _) Ha0).
      * intros a so' Hin Ha' Hf'. rewrite S1 in Ha'.
        destruct (heap w !! a) as [so|] eqn:Ha; [|discriminate].
        simpl in Ha'. injection Ha' as <-.
        destruct (decide (a = a0)); [discriminate|].
        exact (Hfree a so (list_elem_of_further _ _ _ Hin) Ha Hf').
Qed.

Lemma filter_none {A} (P : A -> Prop) `{forall x, Decision (P x)} (l : list A) :
  (forall x, x ∈ l -> ~ P x) -> filter P l = [].
Proof.
  induction l as [|x l IH]; intros Hl; [reflexivity|].
  rewrite filter_cons_False by (apply Hl, list_elem_of_here).
  apply IH. intros y Hy. apply Hl, list_elem_of_further, Hy.
Qed.

End Shutdown.

(** X7.  On SIGINT every StreamOutput in the registry is stopped: it is
    cleared, and the child it held has its stdin ended and is sent
    SIGTERM; the health report would count no active stream, while the
    registry itself is left as it is.  A StreamOutput that is not in the
    registry (its entry was overwritten or deleted by another session) is
    not stopped: it and its child are exactly as before, and the child is
    sent no signal. *)
Theorem sigint_stops_registered_streams (env : environment) (w : world) :
  reachable env w ->
  let w' := on_sigint w in
  streams w' = streams w /\
  (health w').2 = 0 /\
  (forall (a : addr) (so : StreamOutput),
      a ∈ JsMap.values (streams w) -> heap w !! a = Some so ->
      heap w' !! a = Some (with_child None false so)) /\
  (forall (a : addr) (so : StreamOutput) (p : pid) (ch : child),
      a ∈ JsMap.values (streams w) -> heap w !! a = Some so ->
      ffmpeg so = Some p -> procs w !! p = Some ch ->
      procs w' !! p = Some (signal "SIGTERM" (end_stdin ch))) /\
  (forall (a : addr) (so : StreamOutput),
      a ∉ JsMap.values (streams w) -> heap w !! a = Some so ->
      heap w' !! a = Some so /\
      forall (p : pid) (ch : child),
        ffmpeg so = Some p -> procs w !! p = Some ch ->
        procs w' !! p = Some ch).
Proof.
  intros Hreach w'.
  pose proof (reachable_consistent env w Hreach) as Hcons.
  pose proof (reachable_tidy env w Hreach) as Ht.
  set (w0 := emit (ConsoleLog (String "010" "Shutting down...")) w).
  assert (Hcons0 : consistent w0) by (apply consistent_emit; exact Hcons).
  assert (Ht0 : tidy w0) by (apply (tidy_same w); auto).
  destruct (stop_all_spec (JsMap.values (streams w)) w0 Hcons0 Ht0)
    as (I1 & I2 & I3 & I4 & I5 & I6 & I7).
  change (fold_left _ (JsMap.values (streams w)) w0) with w'
    in I1, I2, I3, I4, I5, I6, I7.
  change (streams w0) with (streams w) in I1.
  change (heap w0) with (heap w) in I5, I6, I7.
  change (procs w0) with (procs w) in I6, I7.
  split; [exact I1|]. split; [|split; [|split]].
  - unfold health. cbn [snd]. rewrite I1.
    rewrite filter_none; [reflexivity|].
    intros a Hin. unfold is_streaming. rewrite I5.
    destruct (heap w !! a) as [so|]; simpl; [|discriminate].
    rewrite decide_True by exact Hin. simpl. discriminate.
  - intros a so Hin Ha. rewrite I5, Ha. simpl.
    rewrite decide_True by exact Hin. reflexivity.
  - intros a so p ch Hin Ha Hf Hch. exact (I6 a so p ch Hin Ha Hf Hch).
  - intros a so Hnin Ha. split.
    + rewrite I5, Ha. simpl. rewrite decide_False by exact Hnin. reflexivity.
    + intros p ch Hf Hch. apply I7; [exact Hch|].
      intros a' so' Hin Ha' Hf'.
      destruct (child_owned w Hcons a so p Ha Hf) as (c1 & Hc1 & Ho1).
      destruct (child_owned w Hcons a' so' p Ha' Hf') as (c2 & Hc2 & Ho2).
      assert (Heq : a' = a) by congruence. rewrite Heq in Hin. exact (Hnin Hin).
Qed.

Lemma sigint_stops_registered_streams_witness :
  let w' := on_sigint demo_two_sessions in
  (health w').2 = 0 /\
  heap w' !! 0 = heap demo_two_sessions !! 0 /\
  signals <$> procs w' !! 0 = Some [] /\
  signals <$> procs w' !! 1 = Some ["SIGTERM"].
Proof.
  intros w'.
  destruct (sigint_stops_registered_streams (demo_env SpawnOk) demo_two_sessions)
    as (_ & H1 & _ & _ & _).
  - exists [WsConnection; configure_for 0 "twitch";
            WsConnection; configure_for 1 "twitch"]. reflexivity.
  - split; [exact H1|]. vm_compute. auto.
Defined.

(** ** The health report *)

Section Health.





End Health.



(** ** The credential parser *)

Section Parser.

Import JsString.


(** Without the separator, one piece. *)
Lemma split_absent c s : occurs c s = false -> split c s = [s].
Proof.
  induction s as [|a s IH]; simpl; intros H; [reflexivity|].
  apply orb_false_iff in H as [Ha Hs]. rewrite Ha, (IH Hs). reflexivity.
Qed.







Lemma parse_passed_over line c : passed_over line = true -> parse_line c line = c.
Proof.
  unfold passed_over, parse_line. intros H.
  destruct (truthy line) eqn:Ht; [|reflexivity].
  destruct (startsWith "#" line) eqn:Hh; [reflexivity|]. simpl in *.
  destruct (occurs "=" line) eqn:Ho; simpl in H.
  - destruct line as [|a line]; [discriminate|]. simpl in H.
    simpl. rewrite H. reflexivity.
  - rewrite (split_absent "=" line Ho). rewrite Ht. reflexivity.
Qed.

Lemma fold_passed_over lines c :
  Forall (fun line => passed_over line = true) lines ->
  fold_left parse_line lines c = c.
Proof.
  induction 1 as [|line lines Hline _ IH]; simpl; [reflexivity|].
  rewrite (parse_passed_over line c Hline). exact IH.
Qed.

End Parser.





(** X11.  Empty lines, comment lines, lines without [=] and lines that
    start with [=] are passed over.  A credential file made of such lines
    only gives an empty configuration, and its platform does not resolve:
    the server answers the configuration message with the error frame. *)
Theorem file_without_assignments_does_not_resolve
    (env : environment) (p content : string) :
  fs env (envPath env p) = Some (RegularFile content) ->
  Forall (fun line => passed_over line = true) (JsString.split "010" content) ->
  parse_env content = ∅ /\ unresolved env p.
Proof.
  intros Hfs Hlines.
  assert (H : parse_env content = ∅) by (apply fold_passed_over; exact Hlines).
  split; [exact H|]. right. exists content. split; [exact Hfs|].
  rewrite H. reflexivity.
Qed.

Lemma file_without_assignments_does_not_resolve_witness :
  let env := {| HOME := "/home/lofi";
                fs := fun _ => Some (RegularFile "# keys go here

STREAM_KEY
=orphan");
                spawn_outcome := fun _ => SpawnOk |} in
  unresolved env "youtube".
Proof.
  intros env.
  apply (file_without_assignments_does_not_resolve env "youtube" "# keys go here

STREAM_KEY
=orphan").
  - reflexivity.
  - vm_compute. repeat constructor.
Defined.

(** ** The endpoint override and the stderr listener *)

(** X12.  When the credential file of a platform gives a non-empty
    STREAM_URL, the StreamOutput of the session is constructed with that
    URL, and ffmpeg is started towards that URL followed by [/] and the
    key. *)
Theorem endpoint_override_is_used
    (env : environment) (c : conn) (s : session) (field : option string)
    (streamConfig : config) (key url : string) (w : world) :
  sessions w !! c = Some s -> connected s = true -> streamOutput s = None ->
  resolves env (platform_of field) streamConfig key ->
  streamConfig !! "STREAM_URL" = Some url -> JsString.truthy url = true ->
  spawn_outcome env (spawn_calls w) <> SpawnThrows ->
  let w1 := handle env (WsMessage c (Text (ConfigObject field))) w in
  exists (so : StreamOutput) (ch : child),
    heap w1 !! length (heap w) = Some so /\
    streamUrl so = url /\ streamKey so = key /\
    ffmpeg so = Some (length (procs w)) /\
    procs w1 !! length (procs w) = Some ch /\
    owner ch = length (heap w) /\
    rtmpUrl ch = url ++ "/" ++ key /\
    SpawnCall (url ++ "/" ++ key) ∈ trace w1.
Proof.
  intros Hs Hc Ha Hres Hurl Htruthy Hr w1.
  assert (Hw1 : w1 = configure env c s (ConfigObject field) w)
    by (apply handle_config_frame; assumption).
  rewrite (configure_streaming env c s field streamConfig key w Hres Hr) in Hw1.
  assert (Hover : prop_or streamConfig "STREAM_URL" default_stream_url = url)
    by (unfold prop_or; rewrite Hurl, Htruthy; reflexivity).
  eexists. eexists. rewrite Hw1. simpl.
  split; [apply list_lookup_middle; reflexivity|]. simpl.
  split; [exact Hover|]. split; [reflexivity|]. split; [reflexivity|].
  split; [apply list_lookup_middle; reflexivity|]. simpl.
  split; [reflexivity|]. rewrite Hover. split; [reflexivity|].
  apply elem_of_app. right.
  apply list_elem_of_further, list_elem_of_further, list_elem_of_here.
Qed.

Lemma endpoint_override_is_used_witness :
  let env := demo_env SpawnOk in
  let w := run env [WsConnection] initial in
  exists (so : StreamOutput) (ch : child),
    heap (handle env (configure_for 0 "kick") w) !! 0 = Some so /\
    streamUrl so = "rtmps://ingest.kick.example/app" /\
    procs (handle env (configure_for 0 "kick") w) !! 0 = Some ch /\
    rtmpUrl ch = "rtmps://ingest.kick.example/app/kick-key".
Proof.
  intros env w.
  destruct (endpoint_override_is_used env 0
              {| streamOutput := None; session_platform := "youtube";
                 connected := true |} (Some "kick")
              (parse_env "STREAM_KEY=kick-key
STREAM_URL=rtmps://ingest.kick.example/app") "kick-key"
              "rtmps://ingest.kick.example/app" w)
    as (so & ch & H1 & H2 & _ & _ & H3 & _ & H4 & _).
  - reflexivity.
  - reflexivity.
  - reflexivity.
  - exists "STREAM_KEY=kick-key
STREAM_URL=rtmps://ingest.kick.example/app".
    repeat split; vm_compute; reflexivity.
  - vm_compute; reflexivity.
  - reflexivity.
  - simpl. discriminate.
  - exists so, ch. auto.
Defined.

Section Includes.

Lemma prefix_spec n h :
  String.prefix n h = true <-> exists post, h = n ++ post.
Proof.
  revert h. induction n as [|a n IH]; intros h.
  - split; [intros _; exists h; reflexivity | intros _; destruct h; reflexivity].
  - destruct h as [|b h]; simpl.
    + split; [discriminate | intros (post & H); discriminate].
    + destruct (Ascii.ascii_dec a b) as [->|Hne].
      * rewrite IH. split; intros (post & H); exists post.
        -- rewrite H. reflexivity.
        -- injection H as ->. reflexivity.
      * split; [discriminate|]. intros (post & H). injection H as -> _.
        congruence.
Qed.

Lemma includes_spec n h :
  includes n h = true <-> exists pre post, h = pre ++ n ++ post.
Proof.
  induction h as [|b h IH].
  - change (includes n "") with (String.prefix n "" || false).
    rewrite orb_false_r, prefix_spec. split.
    + intros (post & H). exists "", post. exact H.
    + intros (pre & post & H). destruct pre; simpl in H.
      * exists post. exact H.
      * discriminate.
  - change (includes n (String b h))
      with (String.prefix n (String b h) || includes n h).
    rewrite orb_true_iff, prefix_spec, IH. split.
    + intros [(post & H)|(pre & post & H)].
      * exists "", post. exact H.
      * exists (String b pre), post. rewrite H. reflexivity.
    + intros (pre & post & H). destruct pre as [|a pre]; simpl in H.
      * left. exists post. exact H.
      * right. injection H as -> ->. exists pre, post. reflexivity.
Qed.

End Includes.

(** X13.  The listener on the child's stderr never changes the state of
    the server.  It prints a chunk, trimmed and behind the platform tag,
    exactly when the chunk holds one of the ten markers somewhere; every
    other chunk is dropped.  So a chunk that holds [rtmp], as the line on
    which ffmpeg names its destination does, is printed whole. *)
Theorem stderr_chunk_printed_iff_marked
    (a : addr) (so : StreamOutput) (msg : string) (w : world) :
  heap w !! a = Some so ->
  untraced (on_stderr_data a msg w) = untraced w /\
  ((exists marker pre post,
       marker ∈ stderr_markers /\ msg = pre ++ marker ++ post) ->
   trace (on_stderr_data a msg w)
   = (trace w ++ [ConsoleLog (tag so ++ " ffmpeg: " ++ JsString.trim msg)])%list) /\
  (~ (exists marker pre post,
         marker ∈ stderr_markers /\ msg = pre ++ marker ++ post) ->
   on_stderr_data a msg w = w).
Proof.
  intros Ha. unfold on_stderr_data. rewrite Ha.
  destruct (existsb (fun marker => includes marker msg) stderr_markers) eqn:E.
  - split; [reflexivity|]. split; [reflexivity|].
    intros Hnone. exfalso. apply Hnone.
    apply existsb_exists in E as (marker & Hin & Hinc).
    apply includes_spec in Hinc as (pre & post & H).
    exists marker, pre, post. split; [apply list_elem_of_In; exact Hin | exact H].
  - split; [reflexivity|]. split; [|reflexivity].
    intros (marker & pre & post & Hin & H). exfalso.
    assert (Hex : existsb (fun marker => includes marker msg) stderr_markers = true).
    { apply existsb_exists. exists marker.
      split; [apply list_elem_of_In; exact Hin|].
      apply includes_spec. exists pre, post. exact H. }
    congruence.
Qed.

Lemma stderr_chunk_printed_iff_marked_witness :
  trace (on_stderr_data 0
           "Output #0, flv, to 'rtmp://a.rtmp.youtube.com/live2/tw-key':
" (demo_streaming SpawnOk))
  = (trace (demo_streaming SpawnOk)
     ++ [ConsoleLog
           "[twitch] ffmpeg: Output #0, flv, to 'rtmp://a.rtmp.youtube.com/live2/tw-key':"])%list.
Proof.
  refine (proj1 (proj2 (stderr_chunk_printed_iff_marked 0
                          {| platform := "twitch"; streamKey := "tw-key";
                             streamUrl := "rtmp://a.rtmp.youtube.com/live2";
                             ffmpeg := Some 0; isStreaming := true |}
                          _ (demo_streaming SpawnOk) _)) _).
  - vm_compute; reflexivity.
  - exists "rtmp", "Output #0, flv, to '", "://a.rtmp.youtube.com/live2/tw-key':
".
    split; [|reflexivity].
    do 4 apply list_elem_of_further. apply list_elem_of_here.
Defined.

(** ** The browser client *)

Section ClientFacts.

Lemma find_first {A} (f : A -> bool) (l : list A) :
  match List.find f l with
  | Some x =>
      exists before after,
        l = (before ++ x :: after)%list /\ f x = true /\
        Forall (fun y => f y = false) before
  | None => Forall (fun y => f y = false) l
  end.
Proof.
  induction l as [|y l IH]; simpl; [constructor|].
  destruct (f y) eqn:Hy.
  - exists [], l. split; [reflexivity|]. split; [exact Hy | constructor].
  - destruct (List.find f l) as [x|].
    + destruct IH as (before & after & -> & Hx & Hb).
      exists (y :: before), after. split; [reflexivity|].
      split; [exact Hx | constructor; assumption].
    + constructor; assumption.
Qed.

Lemma sent_to_app c t1 t2 : sent_to c (t1 ++ t2) = (sent_to c t1 ++ sent_to c t2)%list.
Proof.
  induction t1 as [|x t1 IH]; simpl; [reflexivity|].
  destruct x; simpl; rewrite ?IH; try reflexivity.
  destruct (Nat.eqb c0 c); simpl; rewrite ?IH; reflexivity.
Qed.

Lemma sent_to_log c line t : sent_to c (ConsoleLog line :: t) = sent_to c t.
Proof. reflexivity. Qed.

Lemma sent_to_errors c lines : sent_to c (map ConsoleError lines) = [].
Proof. induction lines as [|x l IH]; simpl; [reflexivity | exact IH]. Qed.

Variable env : environment.

(** Configuration for a platform whose credential file cannot be read. *)
Lemma configure_unreadable c s field w :
  fs env (envPath env (platform_of field)) = Some Unreadable ->
  let p := platform_of field in
  configure env c s (ConfigObject field) w
  = {| heap := heap w; procs := procs w; streams := streams w;
       sessions := <[c := awaiting s p]> (sessions w);
       spawn_calls := spawn_calls w;
       trace := trace w
                ++ [ConsoleLog ("Configuring stream for platform: " ++ p);
                    ConsoleError "Invalid config message:"] |}.
Proof.
  intros Hfs p. unfold configure, loadStreamConfig. fold p. fold p in Hfs.
  rewrite Hfs. simpl. unfold invalid_config, emit, awaiting. simpl.
  rewrite <- app_assoc. reflexivity.
Qed.

(** The binary frames of a streaming session whose child accepts writes
    reach the child in order. *)
Lemma run_binary_frames c s a p ch datas w :
  sessions w !! c = Some s -> connected s = true -> streamOutput s = Some a ->
  feeds w a = Some p -> procs w !! p = Some ch ->
  exists ch',
    procs (run env (map (fun data => WsMessage c (Binary data)) datas) w) !! p
    = Some ch' /\
    stdin_received ch' = (stdin_received ch ++ datas)%list.
Proof.
  revert w ch. induction datas as [|data datas IH]; intros w ch Hs Hc Ha Hf Hch; simpl.
  - exists ch. rewrite app_nil_r. auto.
  - destruct (binary_frame_step env c s a p data w Hs Hc Ha Hf)
      as (ch0 & Hch0 & Hw0 & Hstep).
    assert (ch0 = ch) as -> by congruence.
    simpl in Hstep. rewrite Hstep.
    set (w1 := emit _ _).
    assert (Hch1 : procs w1 !! p = Some (receive data ch)).
    { simpl. apply list_lookup_insert_eq. eapply lookup_lt_Some. exact Hch. }
    destruct (IH w1 (receive data ch) Hs Hc Ha
                 (feeds_after_receive a p ch data _ w Hf Hch Hw0) Hch1)
      as (ch' & H1 & H2).
    exists ch'. split; [exact H1|]. rewrite H2. simpl.
    rewrite <- app_assoc. reflexivity.
Qed.

End ClientFacts.

(** X14.  [_startRecording] records in the first format of its list that
    the browser supports: the chosen format is supported and every format
    before it in the list is not; it throws exactly when none of the four
    formats is supported. *)
Theorem first_supported_format_is_chosen (isTypeSupported : string -> bool) :
  match Client.choose_mimeType isTypeSupported with
  | Returns mt =>
      exists before after : list string,
        Client.mimeTypes = (before ++ mt :: after)%list /\
        isTypeSupported mt = true /\
        Forall (fun other => isTypeSupported other = false) before
  | Throws =>
      Forall (fun other => isTypeSupported other = false) Client.mimeTypes
  end.
Proof.
  unfold Client.choose_mimeType.
  pose proof (find_first isTypeSupported Client.mimeTypes) as H.
  destruct (List.find isTypeSupported Client.mimeTypes); exact H.
Qed.

(** X15.  What the client's connection promise becomes once the server
    has handled the client's first frame and the client has received the
    frames the server sent back.  Credentials that do not resolve reject
    the promise with the server's message; credentials that resolve, with
    a [spawn] that returns a ChildProcess, fulfil it.  When the credential
    file cannot be read, or [spawn] throws, the server sends nothing: the
    promise stays pending, and the ten-second timeout leaves it pending
    too, because the socket is open. *)
Theorem client_promise_follows_server
    (env : environment) (c : conn) (s : session) (p : string) (w : world) :
  sessions w !! c = Some s -> connected s = true -> streamOutput s = None ->
  let w1 := handle env (WsMessage c (Client.onopen p)) w in
  let frames := sent_to c (drop (length (trace w)) (trace w1)) in
  let promise := Client.receive_all frames Client.Pending in
  (unresolved env (platform_of (Some p)) ->
   promise = Client.Rejected ("No stream key found for " ++ platform_of (Some p))) /\
  (forall (streamConfig : config) (key : string),
      resolves env (platform_of (Some p)) streamConfig key ->
      spawn_outcome env (spawn_calls w) <> SpawnThrows ->
      promise = Client.Fulfilled) /\
  (fs env (envPath env (platform_of (Some p))) = Some Unreadable \/
   (exists (streamConfig : config) (key : string),
       resolves env (platform_of (Some p)) streamConfig key /\
       spawn_outcome env (spawn_calls w) = SpawnThrows) ->
   frames = [] /\ promise = Client.Pending /\
   Client.ontimeout Client.OPEN promise = Client.Pending).
Proof.
  intros Hs Hc Ha w1 frames promise.
  assert (Hw1 : w1 = configure env c s (ConfigObject (Some p)) w)
    by (apply handle_config_frame; assumption).
  split; [|split].
  - intros Hun. unfold promise, frames.
    rewrite Hw1, (configure_unresolved env c s (Some p) w Hun). simpl trace.
    rewrite drop_app_length.
    rewrite sent_to_log, sent_to_app, sent_to_errors. simpl.
    rewrite Nat.eqb_refl. reflexivity.
  - intros streamConfig key Hres Hr. unfold promise, frames.
    rewrite Hw1, (configure_streaming env c s (Some p) streamConfig key w Hres Hr).
    simpl trace. rewrite drop_app_length. simpl. rewrite Nat.eqb_refl. reflexivity.
  - intros Hsilent.
    assert (Hnone : frames = []).
    { unfold frames. rewrite Hw1.
      destruct Hsilent as [Hfs|(streamConfig & key & Hres & Ht)].
      - rewrite (configure_unreadable env c s (Some p) w Hfs). simpl trace.
        rewrite drop_app_length. reflexivity.
      - rewrite (configure_spawn_throws env c s (Some p) streamConfig key w Hres Ht).
        simpl trace. rewrite drop_app_length. reflexivity. }
    unfold promise. rewrite Hnone. auto.
Qed.

Lemma client_promise_follows_server_witness :
  let env := demo_env SpawnOk in
  let w := run env [WsConnection] initial in
  Client.receive_all
    (sent_to 0 (drop (length (trace w))
                     (trace (handle env (WsMessage 0 (Client.onopen "nokey")) w))))
    Client.Pending
  = Client.Rejected "No stream key found for nokey".
Proof.
  intros env w.
  refine (proj1 (client_promise_follows_server env 0
                   {| streamOutput := None; session_platform := "youtube";
                      connected := true |} "nokey" w _ _ _) _).
  - reflexivity.
  - reflexivity.
  - reflexivity.
  - right. exists "STREAM_URL=rtmp://live.example/app".
    split; vm_compute; reflexivity.
Defined.


(** X17.  From the recorder to ffmpeg: over an open socket the client
    sends one binary frame for every chunk that is not empty and none for
    an empty chunk, and on a streaming session whose child accepts writes
    the server hands these frames to the child's stdin, so that ffmpeg
    receives the non-empty chunks of the recorder in the order recorded.
    Over a socket that is not open the client sends nothing. *)
Theorem recorded_chunks_reach_ffmpeg
    (env : environment) (c : conn) (s : session) (a : addr) (p : pid)
    (ch : child) (datas : list chunk) (w : world) :
  sessions w !! c = Some s -> connected s = true -> streamOutput s = Some a ->
  feeds w a = Some p -> procs w !! p = Some ch ->
  let frames := omap (Client.ondataavailable (Some Client.OPEN)) datas in
  frames = map Binary (filter (fun data => 0 < length data) datas) /\
  (exists ch' : child,
      procs (run env (map (WsMessage c) frames) w) !! p = Some ch' /\
      stdin_received ch'
      = (stdin_received ch ++ filter (fun data => 0 < length data) datas)%list) /\
  (forall ws : option Client.ready_state,
      ws <> Some Client.OPEN -> omap (Client.ondataavailable ws) datas = []).
Proof.
  intros Hs Hc Ha Hf Hch frames.
  assert (Hframes : frames = map Binary (filter (fun data => 0 < length data) datas)).
  { unfold frames. induction datas as [|data datas IH]; [reflexivity|].
    destruct data as [|b data].
    - rewrite filter_cons_False by (simpl; lia). exact IH.
    - rewrite filter_cons_True by (simpl; lia). simpl. f_equal. exact IH. }
  split; [exact Hframes|]. split.
  - rewrite Hframes, map_map.
    exact (run_binary_frames env c s a p ch _ w Hs Hc Ha Hf Hch).
  - intros ws Hws. clear -Hws.
    induction datas as [|data datas IH]; [reflexivity|].
    simpl. destruct ws as [[]|]; simpl; try exact IH. congruence.
Qed.

Lemma recorded_chunks_reach_ffmpeg_witness :
  exists ch' : child,
    procs (run (demo_env SpawnOk)
             (map (WsMessage 0)
                  (omap (Client.ondataavailable (Some Client.OPEN))
                        [[Byte.x1a]; []; [Byte.x45; Byte.xdf]]))
             (demo_streaming SpawnOk)) !! 0 = Some ch' /\
    stdin_received ch' = [[Byte.x1a]; [Byte.x45; Byte.xdf]].
Proof.
  destruct (recorded_chunks_reach_ffmpeg (demo_env SpawnOk) 0
              {| streamOutput := Some 0; session_platform := "twitch";
                 connected := true |}
              0 0 (new_child 0 "rtmp://a.rtmp.youtube.com/live2/tw-key" SpawnOk)
              [[Byte.x1a]; []; [Byte.x45; Byte.xdf]] (demo_streaming SpawnOk))
    as (_ & (ch' & H1 & H2) & _); try (vm_compute; reflexivity).
  exists ch'. split; [exact H1 | exact H2].
Defined.

(** ** Where the children stream to *)

Section Sourced.

Variable env : environment.






End Sourced.



(** ** How many children *)

Section Bound.




End Bound.


